(** * CaveStory: the player's physics, collision and damage rules

    A shallow embedding of [src/Player.cpp] and of
    [FirstCaveBat::update] from [src/FirstCaveBat.cpp].

    Numbers.  [units::Game], [units::Velocity], [units::Acceleration] and
    the angle types are C++ [float]s.  They are idealised here as exact
    rationals ([Q]): no rounding, no infinities and no NaN.  Every
    constant has the value of its decimal literal.  [units::MS] and
    [units::Tile] are unsigned integers ([N]); [units::HP] and the
    acceleration intent are [int]s ([Z]).  None of the modelled functions
    does integer arithmetic that could wrap. *)

From Stdlib Require Import QArith Qminmax Qround Qabs ZArith NArith List Bool Lia Lqa.
Import ListNotations.

Open Scope Q_scope.

(** ** units *)

Module units.

Definition Game := Q.
Definition Velocity := Q.
Definition Acceleration := Q.
Definition AngularVelocity := Q.
Definition Degrees := Q.
Definition MS := N.
Definition Tile := N.
Definition HP := Z.
Definition Frame := N.
Definition FPS := N.

(** An elapsed time used in a [float] product. *)
Definition ofMS (t : MS) : Q := inject_Z (Z.of_N t).

(** An [int] used in a [float] product. *)
Definition ofInt (i : Z) : Q := inject_Z i.

End units.

(** ** The comparisons and [std::min] / [std::max] of C++ *)

Definition Qltb (a b : Q) : bool :=
  match a ?= b with Lt => true | _ => false end.

(** [std::min(a, b)] is [(b < a) ? b : a]. *)
Definition std_min (a b : Q) : Q := if Qltb b a then b else a.

(** [std::max(a, b)] is [(a < b) ? b : a]. *)
Definition std_max (a b : Q) : Q := if Qltb a b then b else a.

(** ** Rectangle *)

Module Rectangle.

(** Modelled from the spec: [Rectangle.h] is not among the sources.  The
    spec describes an "axis-aligned box primitive with edge accessors";
    the constructor takes [x], [y], [width] and [height], as every call
    in [Player.cpp] shows. *)
Record t : Type := make { x : Q; y : Q; width : Q; height : Q }.

Definition left (r : t) : Q := x r.
Definition right (r : t) : Q := x r + width r.
Definition top (r : t) : Q := y r.
Definition bottom (r : t) : Q := y r + height r.

End Rectangle.

(** ** Map: the tile query *)

Module Map.

Inductive TileType : Type := AIR_TILE | WALL_TILE.

Record CollisionTile : Type :=
  mkCollisionTile { row : units.Tile; col : units.Tile; tile_type : TileType }.

Definition isWall (c : CollisionTile) : bool :=
  match tile_type c with WALL_TILE => true | AIR_TILE => false end.

(** [Map::getCollidingTiles]: the tiles under a rectangle, in the
    provider's own order.  [Map.cpp] is not among the sources; the
    player's code is verified against every provider. *)
Definition Provider : Type := Rectangle.t -> list CollisionTile.

End Map.

(** ** getWallCollisionInfo *)

Record CollisionInfo : Type :=
  mkCollisionInfo { collided : bool; row : units.Tile; col : units.Tile }.

(** The loop of [getWallCollisionInfo]: scan the tiles in order and stop
    at the first wall. *)
Fixpoint scanTiles (tiles : list Map.CollisionTile) (info : CollisionInfo)
  : CollisionInfo :=
  match tiles with
  | [] => info
  | tile :: rest =>
      if Map.isWall tile
      then mkCollisionInfo true (Map.row tile) (Map.col tile)
      else scanTiles rest info
  end.

Definition getWallCollisionInfo (map : Map.Provider) (rectangle : Rectangle.t)
  : CollisionInfo :=
  scanTiles (map rectangle) (mkCollisionInfo false 0%N 0%N).

(** The first wall of a tile sequence, in iteration order. *)
Definition firstWall (tiles : list Map.CollisionTile) : option Map.CollisionTile :=
  List.find Map.isWall tiles.

(** ** Fallible steps: a failed [assert] is [None] *)

Definition bind {A B : Type} (m : option A) (k : A -> option B) : option B :=
  match m with Some a => k a | None => None end.

Notation "x <- m ;; k" := (bind m (fun x => k))
  (at level 61, m at next level, right associativity).

(** ** Timer *)

Module Timer.

(** Modelled from the spec: [Timer.h] is not among the sources.  The
    spec gives the state machine {INACTIVE, ACTIVE(remaining_ms)}: a
    reset makes the timer ACTIVE with the fixed duration as remaining
    time; each frame an ACTIVE timer counts down by the elapsed time and
    becomes INACTIVE at or below zero. *)
Inductive t : Type := INACTIVE | ACTIVE (remaining : units.MS).

Definition active (tm : t) : bool :=
  match tm with ACTIVE _ => true | INACTIVE => false end.

Definition reset (duration : units.MS) (tm : t) : t := ACTIVE duration.

Definition update (elapsed_time : units.MS) (tm : t) : t :=
  match tm with
  | INACTIVE => INACTIVE
  | ACTIVE remaining =>
      if (remaining <=? elapsed_time)%N then INACTIVE
      else ACTIVE (remaining - elapsed_time)%N
  end.

End Timer.

(** ** The collaborators of the player that are not among the sources *)

Class Collaborators : Type := {
  (** [units::tileToGame]: the world coordinate of a tile index. *)
  tileToGame : units.Tile -> units.Game;
  (** The health bar ([health_]) and its two operations used here. *)
  Health : Type;
  Health_takeDamage : units.HP -> Health -> Health;
  Health_update : units.MS -> Health -> Health;
  (** The floating damage number ([damage_text_]). *)
  DamageText : Type;
  DamageText_setDamage : units.HP -> DamageText -> DamageText;
  DamageText_update : units.MS -> DamageText -> DamageText
}.

(** ** Player *)

Module Player.

Import units.

(** *** The constants of the anonymous namespace *)

(* Walk Motion *)
Definition kWalkingAcceleration : Acceleration := 0.00083007812.
Definition kMaxSpeedX : Velocity := 0.15859375.
Definition kFriction : Acceleration := 0.00049804587.

(* Fall Motion *)
Definition kGravity : Acceleration := 0.00078125.
Definition kMaxSpeedY : Velocity := 0.2998046875.

(* Jump Motion *)
Definition kJumpSpeed : Velocity := 0.25.
Definition kShortJumpSpeed : Velocity := kJumpSpeed / 1.5.
Definition kAirAcceleration : Acceleration := 0.0003125.
Definition kJumpGravity : Acceleration := 0.0003125.

(* Collision Rectangles *)
Definition kCollisionX : Rectangle.t := Rectangle.make 6 10 20 12.
Definition kCollisionY : Rectangle.t := Rectangle.make 10 2 12 30.

Definition kInvincibleTime : MS := 3000%N.

(** *** The enumerations of [Player::SpriteState] *)

Inductive MotionType : Type :=
  STANDING | INTERACTING | WALKING | JUMPING | FALLING.
Inductive HorizontalFacing : Type := LEFT | RIGHT.
Inductive VerticalFacing : Type := UP | DOWN | HORIZONTAL.

Record SpriteState : Type := mkSpriteState {
  motion_type : MotionType;
  horizontal_facing : HorizontalFacing;
  vertical_facing : VerticalFacing
}.

(** *** The sprite frames and Player::initializeSprite *)

(* Sprite Frames *)
Definition kCharacterFrame : Frame := 0%N.

Definition kWalkFrame : Frame := 0%N.
Definition kStandFrame : Frame := 0%N.
Definition kJumpFrame : Frame := 1%N.
Definition kFallFrame : Frame := 2%N.
Definition kUpFrameOffset : Frame := 3%N.
Definition kDownFrame : Frame := 6%N.
Definition kBackFrame : Frame := 7%N.

(* Walk Animation *)
Definition kNumWalkFrames : Frame := 3%N.
Definition kWalkFps : FPS := 15%N.

(** What [initializeSprite] stores for a sprite state: the tile of the
    sprite sheet where the picture starts and, for an animated sprite,
    its rate and its number of frames, which follow that tile to the
    right.  Every sprite is one tile wide and one tile high. *)
Inductive SpriteSource : Type :=
| StaticSprite (tile_x tile_y : Tile)
| AnimatedSprite (tile_x tile_y : Tile) (fps : FPS) (num_frames : Frame).

Definition initializeSprite (sprite_state : SpriteState) : SpriteSource :=
  let tile_y :=
    match horizontal_facing sprite_state with
    | LEFT => kCharacterFrame
    | RIGHT => (1 + kCharacterFrame)%N
    end in
  let tile_x :=
    match motion_type sprite_state with
    | WALKING => kWalkFrame
    | STANDING => kStandFrame
    | INTERACTING => kBackFrame
    | JUMPING => kJumpFrame
    | FALLING => kFallFrame
    end in
  let tile_x :=
    match vertical_facing sprite_state with
    | UP => (tile_x + kUpFrameOffset)%N
    | _ => tile_x
    end in
  match motion_type sprite_state with
  | WALKING => AnimatedSprite tile_x tile_y kWalkFps kNumWalkFrames
  | motion =>
      let tile_x :=
        match vertical_facing sprite_state, motion with
        | DOWN, JUMPING | DOWN, FALLING => kDownFrame
        | _, _ => tile_x
        end in
      StaticSprite tile_x tile_y
  end.

(** The first and the last column of the sheet that a sprite shows. *)
Definition firstColumn (source : SpriteSource) : Tile :=
  match source with
  | StaticSprite tile_x _ => tile_x
  | AnimatedSprite tile_x _ _ _ => tile_x
  end.

Definition lastColumn (source : SpriteSource) : Tile :=
  match source with
  | StaticSprite tile_x _ => tile_x
  | AnimatedSprite tile_x _ _ num_frames => (tile_x + num_frames - 1)%N
  end.

Definition sheetRow (source : SpriteSource) : Tile :=
  match source with
  | StaticSprite _ tile_y => tile_y
  | AnimatedSprite _ tile_y _ _ => tile_y
  end.

(** *** operator< on sprite states

    The enumerators are compared as integers.  [Player.h], which gives
    them their values, is not among the sources: the values are taken as
    they come. *)
Section Enumerators.

Variable motionValue : MotionType -> Z.
Variable horizontalValue : HorizontalFacing -> Z.
Variable verticalValue : VerticalFacing -> Z.

Definition SpriteState_lt (a b : SpriteState) : bool :=
  if negb (motionValue (motion_type a) =? motionValue (motion_type b))%Z then
    (motionValue (motion_type a) <? motionValue (motion_type b))%Z
  else if negb (horizontalValue (horizontal_facing a)
                =? horizontalValue (horizontal_facing b))%Z then
    (horizontalValue (horizontal_facing a)
     <? horizontalValue (horizontal_facing b))%Z
  else if negb (verticalValue (vertical_facing a)
                =? verticalValue (vertical_facing b))%Z then
    (verticalValue (vertical_facing a) <? verticalValue (vertical_facing b))%Z
  else false.

End Enumerators.

Section WithCollaborators.

Context {C : Collaborators}.

(** *** The player's members

    The members that only draw ([sprites_], [polar_star_]) are left
    out: no modelled function reads them. *)
Record t : Type := mk {
  x_ : Game;
  y_ : Game;
  velocity_x_ : Velocity;
  velocity_y_ : Velocity;
  acceleration_x_ : Z;
  horizontal_facing_ : HorizontalFacing;
  vertical_facing_ : VerticalFacing;
  on_ground_ : bool;
  jump_active_ : bool;
  interacting_ : bool;
  health_ : Health;
  damage_text_ : DamageText;
  invincible_timer_ : Timer.t
}.

(** Assignments to one member. *)
Definition set_x (v : Game) (p : t) : t :=
  mk v (y_ p) (velocity_x_ p) (velocity_y_ p) (acceleration_x_ p)
     (horizontal_facing_ p) (vertical_facing_ p) (on_ground_ p)
     (jump_active_ p) (interacting_ p) (health_ p) (damage_text_ p)
     (invincible_timer_ p).
Definition set_y (v : Game) (p : t) : t :=
  mk (x_ p) v (velocity_x_ p) (velocity_y_ p) (acceleration_x_ p)
     (horizontal_facing_ p) (vertical_facing_ p) (on_ground_ p)
     (jump_active_ p) (interacting_ p) (health_ p) (damage_text_ p)
     (invincible_timer_ p).
Definition set_velocity_x (v : Velocity) (p : t) : t :=
  mk (x_ p) (y_ p) v (velocity_y_ p) (acceleration_x_ p)
     (horizontal_facing_ p) (vertical_facing_ p) (on_ground_ p)
     (jump_active_ p) (interacting_ p) (health_ p) (damage_text_ p)
     (invincible_timer_ p).
Definition set_velocity_y (v : Velocity) (p : t) : t :=
  mk (x_ p) (y_ p) (velocity_x_ p) v (acceleration_x_ p)
     (horizontal_facing_ p) (vertical_facing_ p) (on_ground_ p)
     (jump_active_ p) (interacting_ p) (health_ p) (damage_text_ p)
     (invincible_timer_ p).
Definition set_acceleration_x (v : Z) (p : t) : t :=
  mk (x_ p) (y_ p) (velocity_x_ p) (velocity_y_ p) v
     (horizontal_facing_ p) (vertical_facing_ p) (on_ground_ p)
     (jump_active_ p) (interacting_ p) (health_ p) (damage_text_ p)
     (invincible_timer_ p).
Definition set_horizontal_facing (v : HorizontalFacing) (p : t) : t :=
  mk (x_ p) (y_ p) (velocity_x_ p) (velocity_y_ p) (acceleration_x_ p)
     v (vertical_facing_ p) (on_ground_ p)
     (jump_active_ p) (interacting_ p) (health_ p) (damage_text_ p)
     (invincible_timer_ p).
Definition set_vertical_facing (v : VerticalFacing) (p : t) : t :=
  mk (x_ p) (y_ p) (velocity_x_ p) (velocity_y_ p) (acceleration_x_ p)
     (horizontal_facing_ p) v (on_ground_ p)
     (jump_active_ p) (interacting_ p) (health_ p) (damage_text_ p)
     (invincible_timer_ p).
Definition set_on_ground (v : bool) (p : t) : t :=
  mk (x_ p) (y_ p) (velocity_x_ p) (velocity_y_ p) (acceleration_x_ p)
     (horizontal_facing_ p) (vertical_facing_ p) v
     (jump_active_ p) (interacting_ p) (health_ p) (damage_text_ p)
     (invincible_timer_ p).
Definition set_jump_active (v : bool) (p : t) : t :=
  mk (x_ p) (y_ p) (velocity_x_ p) (velocity_y_ p) (acceleration_x_ p)
     (horizontal_facing_ p) (vertical_facing_ p) (on_ground_ p)
     v (interacting_ p) (health_ p) (damage_text_ p)
     (invincible_timer_ p).
Definition set_interacting (v : bool) (p : t) : t :=
  mk (x_ p) (y_ p) (velocity_x_ p) (velocity_y_ p) (acceleration_x_ p)
     (horizontal_facing_ p) (vertical_facing_ p) (on_ground_ p)
     (jump_active_ p) v (health_ p) (damage_text_ p)
     (invincible_timer_ p).
Definition set_health (v : Health) (p : t) : t :=
  mk (x_ p) (y_ p) (velocity_x_ p) (velocity_y_ p) (acceleration_x_ p)
     (horizontal_facing_ p) (vertical_facing_ p) (on_ground_ p)
     (jump_active_ p) (interacting_ p) v (damage_text_ p)
     (invincible_timer_ p).
Definition set_damage_text (v : DamageText) (p : t) : t :=
  mk (x_ p) (y_ p) (velocity_x_ p) (velocity_y_ p) (acceleration_x_ p)
     (horizontal_facing_ p) (vertical_facing_ p) (on_ground_ p)
     (jump_active_ p) (interacting_ p) (health_ p) v
     (invincible_timer_ p).
Definition set_invincible_timer (v : Timer.t) (p : t) : t :=
  mk (x_ p) (y_ p) (velocity_x_ p) (velocity_y_ p) (acceleration_x_ p)
     (horizontal_facing_ p) (vertical_facing_ p) (on_ground_ p)
     (jump_active_ p) (interacting_ p) (health_ p) (damage_text_ p)
     v.

(** Modelled from the spec: [Player.h] is not among the sources; the
    accessor [on_ground()] reads the grounded flag. *)
Definition on_ground (p : t) : bool := on_ground_ p.

(** *** Player::getSpriteState

    The method is not [const]: it is given the player and returns it
    with the result. *)
Definition getSpriteState (p : t) : SpriteState * t :=
  let motion :=
    if interacting_ p then INTERACTING
    else if on_ground p then
      (if negb (acceleration_x_ p =? 0)%Z then WALKING else STANDING)
    else
      (if Qltb (velocity_y_ p) 0 then JUMPING else FALLING) in
  (mkSpriteState motion (horizontal_facing_ p) (vertical_facing_ p), p).

(** *** The input intents *)

Definition startMovingLeft (p : t) : t :=
  set_interacting false (set_horizontal_facing LEFT (set_acceleration_x (-1) p)).

Definition startMovingRight (p : t) : t :=
  set_interacting false (set_horizontal_facing RIGHT (set_acceleration_x 1 p)).

Definition stopMoving (p : t) : t := set_acceleration_x 0 p.

Definition lookUp (p : t) : t :=
  set_interacting false (set_vertical_facing UP p).

Definition lookDown (p : t) : t :=
  match vertical_facing_ p with
  | DOWN => p
  | _ =>
      let p := set_vertical_facing DOWN p in
      set_interacting (on_ground p) p
  end.

Definition lookHorizontal (p : t) : t := set_vertical_facing HORIZONTAL p.

Definition startJump (p : t) : t :=
  let p := set_jump_active true p in
  let p := set_interacting false p in
  if on_ground p then set_velocity_y (- kJumpSpeed) p else p.

Definition stopJump (p : t) : t := set_jump_active false p.

(** *** Player::takeDamage

    The line printed on the console is not part of the player.  The
    timer was built with [kInvincibleTime] by the constructor, which is
    the duration its [reset()] starts from. *)
Definition takeDamage (damage : HP) (p : t) : t :=
  if Timer.active (invincible_timer_ p) then p
  else
    let p := set_health (Health_takeDamage damage (health_ p)) p in
    let p := set_damage_text (DamageText_setDamage damage (damage_text_ p)) p in
    let p := set_velocity_y (std_min (velocity_y_ p) (- kShortJumpSpeed)) p in
    set_invincible_timer (Timer.reset kInvincibleTime (invincible_timer_ p)) p.

(** *** The collision rectangles

    Each of the four asserts the sign of [delta]; [None] is the failed
    assertion.  The rectangle itself is named apart, so that the
    properties can speak of it. *)

Definition leftCollisionRect (p : t) (delta : Game) : Rectangle.t :=
  Rectangle.make
    (x_ p + Rectangle.left kCollisionX + delta)
    (y_ p + Rectangle.top kCollisionX)
    (Rectangle.width kCollisionX / 2 - delta)
    (Rectangle.height kCollisionX).

Definition leftCollision (p : t) (delta : Game) : option Rectangle.t :=
  if Qle_bool delta 0 then Some (leftCollisionRect p delta) else None.

Definition rightCollisionRect (p : t) (delta : Game) : Rectangle.t :=
  Rectangle.make
    (x_ p + Rectangle.left kCollisionX + Rectangle.width kCollisionX / 2)
    (y_ p + Rectangle.top kCollisionX)
    (Rectangle.width kCollisionX / 2 + delta)
    (Rectangle.height kCollisionX).

Definition rightCollision (p : t) (delta : Game) : option Rectangle.t :=
  if Qle_bool 0 delta then Some (rightCollisionRect p delta) else None.

Definition topCollisionRect (p : t) (delta : Game) : Rectangle.t :=
  Rectangle.make
    (x_ p + Rectangle.left kCollisionY)
    (y_ p + Rectangle.top kCollisionY + delta)
    (Rectangle.width kCollisionY)
    (Rectangle.height kCollisionY / 2 - delta).

Definition topCollision (p : t) (delta : Game) : option Rectangle.t :=
  if Qle_bool delta 0 then Some (topCollisionRect p delta) else None.

Definition bottomCollisionRect (p : t) (delta : Game) : Rectangle.t :=
  Rectangle.make
    (x_ p + Rectangle.left kCollisionY)
    (y_ p + Rectangle.top kCollisionY + Rectangle.height kCollisionY / 2)
    (Rectangle.width kCollisionY)
    (Rectangle.height kCollisionY / 2 + delta).

Definition bottomCollision (p : t) (delta : Game) : option Rectangle.t :=
  if Qle_bool 0 delta then Some (bottomCollisionRect p delta) else None.

(** *** Player::updateX

    The function is cut along its own comments: "Update velocity",
    then in each branch "Check collision in the direction of delta"
    with "React to collision", and "Check collision in the other
    direction". *)

(** The local [acceleration_x]: the walking or air acceleration, times
    the intent. *)
Definition accelerationX (p : t) : Acceleration :=
  let acceleration_x :=
    if on_ground p then kWalkingAcceleration else kAirAcceleration in
  acceleration_x * ofInt (acceleration_x_ p).

(** Update velocity. *)
Definition updateX_velocity (elapsed_time_ms : MS) (p : t) : t :=
  let acceleration_x := accelerationX p in
  let p := set_velocity_x
             (velocity_x_ p + acceleration_x * ofMS elapsed_time_ms) p in
  if (acceleration_x_ p <? 0)%Z then
    set_velocity_x (std_max (velocity_x_ p) (- kMaxSpeedX)) p
  else if (acceleration_x_ p >? 0)%Z then
    set_velocity_x (std_min (velocity_x_ p) kMaxSpeedX) p
  else if on_ground p then
    set_velocity_x
      (if Qltb 0 (velocity_x_ p)
       then std_max 0 (velocity_x_ p - kFriction * ofMS elapsed_time_ms)
       else std_min 0 (velocity_x_ p + kFriction * ofMS elapsed_time_ms))
      p
  else p.

(** Check collision in the direction of delta (right) and react. *)
Definition updateX_right (map : Map.Provider) (delta : Game) (p : t)
  : option t :=
  r <- rightCollision p delta ;;
  let info := getWallCollisionInfo map r in
  if collided info then
    let p := set_x (tileToGame (col info) - Rectangle.right kCollisionX) p in
    Some (set_velocity_x 0 p)
  else
    Some (set_x (x_ p + delta) p).

(** Check collision in the other direction (left edge). *)
Definition updateX_recheck_left (map : Map.Provider) (p : t) : option t :=
  r <- leftCollision p 0 ;;
  let info := getWallCollisionInfo map r in
  if collided info then
    Some (set_x (tileToGame (col info) + Rectangle.right kCollisionX) p)
  else
    Some p.

(** Check collision in the direction of the delta (left) and react. *)
Definition updateX_left (map : Map.Provider) (delta : Game) (p : t)
  : option t :=
  r <- leftCollision p delta ;;
  let info := getWallCollisionInfo map r in
  if collided info then
    let p := set_x (tileToGame (col info) + Rectangle.right kCollisionX) p in
    Some (set_velocity_x 0 p)
  else
    Some (set_x (x_ p + delta) p).

(** Check collision in other direction (right edge). *)
Definition updateX_recheck_right (map : Map.Provider) (p : t) : option t :=
  r <- rightCollision p 0 ;;
  let info := getWallCollisionInfo map r in
  if collided info then
    let p := set_x (tileToGame (col info) - Rectangle.right kCollisionX) p in
    Some (set_on_ground true p)
  else
    Some p.

(** The position delta of the horizontal update. *)
Definition deltaX (elapsed_time_ms : MS) (p : t) : Game :=
  velocity_x_ p * ofMS elapsed_time_ms.

Definition updateX (elapsed_time_ms : MS) (map : Map.Provider) (p : t)
  : option t :=
  let p := updateX_velocity elapsed_time_ms p in
  let delta := deltaX elapsed_time_ms p in
  if Qltb 0 delta then
    p <- updateX_right map delta p ;;
    updateX_recheck_left map p
  else
    p <- updateX_left map delta p ;;
    updateX_recheck_right map p.

(** *** Player::updateY, cut the same way *)

(** The gravity of this tick. *)
Definition gravityY (p : t) : Acceleration :=
  if jump_active_ p && Qltb (velocity_y_ p) 0 then kJumpGravity else kGravity.

(** Update velocity. *)
Definition updateY_velocity (elapsed_time_ms : MS) (p : t) : t :=
  let gravity := gravityY p in
  set_velocity_y
    (std_min (velocity_y_ p + gravity * ofMS elapsed_time_ms) kMaxSpeedY) p.

(** Check collision in the direction of delta (down) and react. *)
Definition updateY_down (map : Map.Provider) (delta : Game) (p : t)
  : option t :=
  r <- bottomCollision p delta ;;
  let info := getWallCollisionInfo map r in
  if collided info then
    let p := set_y (tileToGame (row info) - Rectangle.bottom kCollisionY) p in
    let p := set_velocity_y 0 p in
    Some (set_on_ground true p)
  else
    let p := set_y (y_ p + delta) p in
    Some (set_on_ground false p).

(** Check collision in the other direction (top edge). *)
Definition updateY_recheck_top (map : Map.Provider) (p : t) : option t :=
  r <- topCollision p 0 ;;
  let info := getWallCollisionInfo map r in
  if collided info then
    Some (set_y (tileToGame (row info) + Rectangle.height kCollisionY) p)
  else
    Some p.

(** Check collision in the direction of the delta (up) and react. *)
Definition updateY_up (map : Map.Provider) (delta : Game) (p : t)
  : option t :=
  r <- topCollision p delta ;;
  let info := getWallCollisionInfo map r in
  if collided info then
    let p := set_y (tileToGame (row info) + Rectangle.height kCollisionY) p in
    let p := set_velocity_y 0 p in
    Some (set_on_ground false p)
  else
    let p := set_y (y_ p + delta) p in
    Some (set_on_ground false p).

(** Check collision in other direction (bottom edge). *)
Definition updateY_recheck_bottom (map : Map.Provider) (p : t) : option t :=
  r <- bottomCollision p 0 ;;
  let info := getWallCollisionInfo map r in
  if collided info then
    let p := set_y (tileToGame (row info) - Rectangle.bottom kCollisionY) p in
    Some (set_on_ground true p)
  else
    Some p.

(** The position delta of the vertical update. *)
Definition deltaY (elapsed_time_ms : MS) (p : t) : Game :=
  velocity_y_ p * ofMS elapsed_time_ms.

Definition updateY (elapsed_time_ms : MS) (map : Map.Provider) (p : t)
  : option t :=
  let p := updateY_velocity elapsed_time_ms p in
  let delta := deltaY elapsed_time_ms p in
  if Qltb 0 delta then
    p <- updateY_down map delta p ;;
    updateY_recheck_top map p
  else
    p <- updateY_up map delta p ;;
    updateY_recheck_bottom map p.

(** *** Player::update

    The sprite of the current state advances its animation, which is
    not modelled. *)
Definition update (elapsed_time_ms : MS) (map : Map.Provider) (p : t)
  : option t :=
  let p := set_health (Health_update elapsed_time_ms (health_ p)) p in
  let p := set_damage_text
             (DamageText_update elapsed_time_ms (damage_text_ p)) p in
  p <- updateX elapsed_time_ms map p ;;
  updateY elapsed_time_ms map p.

(** *** One frame of the player

    The part of [Game::update] that acts on the player before the bat
    is looked at: [Timer::updateAll] advances the invincibility timer,
    then the player is updated. *)
Definition frame (elapsed_time_ms : MS) (map : Map.Provider) (p : t)
  : option t :=
  let p := set_invincible_timer
             (Timer.update elapsed_time_ms (invincible_timer_ p)) p in
  update elapsed_time_ms map p.




(** *** Player::damageRectangle *)
Definition damageRectangle (p : t) : Rectangle.t :=
  Rectangle.make
    (x_ p + Rectangle.left kCollisionX)
    (y_ p + Rectangle.top kCollisionY)
    (Rectangle.width kCollisionX)
    (Rectangle.height kCollisionY).

(** *** The constructor

    The health bar and the damage text are built from the graphics and are
    given here.  Modelled from the spec: a timer that was never reset is
    INACTIVE. *)
Definition construct (x y : Game) (health : Health) (damage_text : DamageText)
  : t :=
  mk x y 0 0 0 LEFT HORIZONTAL false false false health damage_text
     Timer.INACTIVE.

(** *** Two conditions on a player's state *)

(** The speeds are within the limits of the constants. *)
Definition speedsBounded (p : t) : Prop :=
  Qabs (velocity_x_ p) <= kMaxSpeedX /\
  - kJumpSpeed <= velocity_y_ p /\
  velocity_y_ p <= kMaxSpeedY.

(** The acceleration intent is -1, 0 or 1 and points where the player
    faces, and an interacting player does not look up. *)
Definition intentCoherent (p : t) : Prop :=
  (acceleration_x_ p = -1 \/ acceleration_x_ p = 0 \/ acceleration_x_ p = 1)%Z /\
  ((acceleration_x_ p < 0)%Z -> horizontal_facing_ p = LEFT) /\
  ((0 < acceleration_x_ p)%Z -> horizontal_facing_ p = RIGHT) /\
  (interacting_ p = true -> vertical_facing_ p <> UP).

(** *** A frame condition

    Two player states agree on the members that neither [updateX] nor
    [updateY] writes. *)
Definition sameRest (p q : t) : Prop :=
  acceleration_x_ q = acceleration_x_ p /\
  horizontal_facing_ q = horizontal_facing_ p /\
  vertical_facing_ q = vertical_facing_ p /\
  jump_active_ q = jump_active_ p /\
  interacting_ q = interacting_ p /\
  health_ q = health_ p /\
  damage_text_ q = damage_text_ p /\
  invincible_timer_ q = invincible_timer_ p.

End WithCollaborators.

Arguments t : clear implicits.

End Player.

(** ** FirstCaveBat *)

Module FirstCaveBat.

Import units.

Inductive Facing : Type := LEFT | RIGHT.

(** What the bat uses and the sources do not hold: [units::kHalfTile],
    [units::degreesToRadians], [std::sin] on an idealised number, and the
    animated sprite with its [update]. *)
Class Collaborators : Type := {
  kHalfTile : Game;
  degreesToRadians : Degrees -> Q;
  sin : Q -> Q;
  Sprite : Type;
  Sprite_update : MS -> Sprite -> Sprite
}.

Section WithCollaborators.

Context {C : Collaborators}.

Definition kAngularVelocity : AngularVelocity := 120 / 1000.
Definition kFlightAmplitude : Game := 5 * kHalfTile.

(** [sprites_] is keyed by the sprite state, which is the facing. *)
Record t : Type := mk {
  center_y_ : Game;
  x_ : Game;
  y_ : Game;
  flight_angle_ : Degrees;
  facing_ : Facing;
  sprites_ : Facing -> Sprite
}.

Definition getSpriteState (b : t) : Facing := facing_ b.

Definition Facing_eqb (a b : Facing) : bool :=
  match a, b with LEFT, LEFT | RIGHT, RIGHT => true | _, _ => false end.

(** [sprites_[key]->update(elapsed_time)] *)
Definition updateSprite (key : Facing) (elapsed_time : MS)
  (sprites : Facing -> Sprite) : Facing -> Sprite :=
  fun k => if Facing_eqb k key then Sprite_update elapsed_time (sprites k)
           else sprites k.

Definition update (elapsed_time : MS) (player_x : Game) (b : t) : t :=
  let flight_angle := flight_angle_ b + kAngularVelocity * ofMS elapsed_time in
  let facing := if Qltb player_x (x_ b + kHalfTile) then LEFT else RIGHT in
  let y := center_y_ b
           + kFlightAmplitude * sin (degreesToRadians flight_angle) in
  let b := mk (center_y_ b) (x_ b) y flight_angle facing (sprites_ b) in
  mk (center_y_ b) (x_ b) (y_ b) (flight_angle_ b) (facing_ b)
     (updateSprite (getSpriteState b) elapsed_time (sprites_ b)).

Definition kContactDamage : HP := 1%Z.

Definition contactDamage (b : t) : HP := kContactDamage.

(** The constructor, given the sprites it builds. *)
Definition construct (x y : Game) (sprites : Facing -> Sprite) : t :=
  mk y x y 0 RIGHT sprites.

End WithCollaborators.

Arguments t : clear implicits.

End FirstCaveBat.

(** ** Game *)

Module Game.

Import units.

Definition kMaxFrameTime : MS := (5 * 1000 / 60)%N.

(** What an iteration of the event loop reads from the input: the keys
    that are held, whether the jump key was pressed or released in this
    frame, and whether the loop is asked to stop (the window was closed or
    the escape key pressed). *)
Record Input : Type := mkInput {
  quit : bool;
  left_held : bool;
  right_held : bool;
  up_held : bool;
  down_held : bool;
  z_pressed : bool;
  z_released : bool
}.

Section WithCollaborators.

Context {PC : Collaborators} {BC : FirstCaveBat.Collaborators}.

(** [Player::center_x], from [Player.h], and the test
    [bat_->damageRectangle().collidesWith(r)], from [FirstCaveBat.h] and
    [Rectangle.h], are not among the sources. *)
Variable center_x : Player.t PC -> Game.
Variable batCollidesWith : FirstCaveBat.t BC -> Rectangle.t -> bool.

Record t : Type := mk {
  player_ : Player.t PC;
  bat_ : FirstCaveBat.t BC;
  map_ : Map.Provider
}.

(** The player's part of the event loop: horizontal movement, vertical
    facing and jump logic. *)
Definition handleInput (input : Input) (p : Player.t PC) : Player.t PC :=
  (* player horizontal movement *)
  let p :=
    if left_held input && right_held input then Player.stopMoving p
    else if left_held input then Player.startMovingLeft p
    else if right_held input then Player.startMovingRight p
    else Player.stopMoving p in
  (* player vertical facing *)
  let p :=
    if up_held input && down_held input then Player.lookHorizontal p
    else if up_held input then Player.lookUp p
    else if down_held input then Player.lookDown p
    else Player.lookHorizontal p in
  (* Player jump logic *)
  if z_pressed input then Player.startJump p
  else if z_released input then Player.stopJump p
  else p.

(** [Game::update]: the timers, the player, the bat, and the bat's
    damage. *)
Definition update (elapsed_time_ms : MS) (g : t) : option t :=
  player <- Player.frame elapsed_time_ms (map_ g) (player_ g) ;;
  let bat := FirstCaveBat.update elapsed_time_ms (center_x player) (bat_ g) in
  let player :=
    if batCollidesWith bat (Player.damageRectangle player)
    then Player.takeDamage (FirstCaveBat.contactDamage bat) player
    else player in
  Some (mk player bat (map_ g)).

(** One iteration of the event loop that is not asked to stop, with the
    time elapsed since the last update: input, then update.  Drawing and
    the pause that paces the frames change nothing here. *)
Definition iteration (input : Input) (elapsed_time : MS) (g : t) : option t :=
  let g := mk (handleInput input (player_ g)) (bat_ g) (map_ g) in
  update (N.min elapsed_time kMaxFrameTime) g.

(** [Game::eventLoop] from its first iteration on: it returns at the
    first iteration that is asked to stop.  The loop is run on the inputs
    and elapsed times of its iterations. *)
Fixpoint eventLoop (iterations : list (Input * MS)) (g : t) : option t :=
  match iterations with
  | [] => Some g
  | (input, elapsed_time) :: rest =>
      if quit input then Some g
      else g <- iteration input elapsed_time g ;; eventLoop rest g
  end.

End WithCollaborators.

Arguments t : clear implicits.

End Game.

(** ** A tile map to run the player on

    A grid of square tiles of 32 game units, queried row by row and, in a
    row, column by column, over the rows and columns that the rectangle's
    edges fall in.  It stands for one possible provider; the properties
    below are proved for all of them. *)

Module GridMap.

Import units.

Definition kTileSize : Game := 32.

Definition gameToTile (g : Game) : Tile := Z.to_N (Qfloor (g / kTileSize)).

(** The tiles [first], ..., [last]. *)
Definition tileRange (first last : Tile) : list Tile :=
  List.map N.of_nat
    (List.seq (N.to_nat first) (N.to_nat last + 1 - N.to_nat first)).

Definition isWallAt (walls : list (Tile * Tile)) (row col : Tile) : bool :=
  List.existsb (fun w => (fst w =? row)%N && (snd w =? col)%N) walls.

(** The provider of the grid whose wall tiles are [walls], as
    (row, column) pairs. *)
Definition getCollidingTiles (walls : list (Tile * Tile)) : Map.Provider :=
  fun rectangle =>
    let first_row := gameToTile (Rectangle.top rectangle) in
    let last_row := gameToTile (Rectangle.bottom rectangle) in
    let first_col := gameToTile (Rectangle.left rectangle) in
    let last_col := gameToTile (Rectangle.right rectangle) in
    List.flat_map
      (fun row =>
         List.map
           (fun col =>
              Map.mkCollisionTile row col
                (if isWallAt walls row col then Map.WALL_TILE
                 else Map.AIR_TILE))
           (tileRange first_col last_col))
      (tileRange first_row last_row).

(** Collaborators for this grid: a health that is a number of points. *)
#[export] Instance collaborators : Collaborators := {|
  tileToGame := fun tile => ofInt (Z.of_N tile) * kTileSize;
  Health := Z;
  Health_takeDamage := fun damage hp => (hp - damage)%Z;
  Health_update := fun _ hp => hp;
  DamageText := Z;
  DamageText_setDamage := fun damage _ => damage;
  DamageText_update := fun _ text => text
|}.

(** A player in the air, with the given position and velocity. *)
Definition airborne (x y : Game) (vx vy : Velocity) : Player.t collaborators :=
  Player.mk x y vx vy 0 Player.LEFT Player.HORIZONTAL false false false
    3%Z 0%Z Timer.INACTIVE.

(** A player on the ground, with the given horizontal velocity and
    acceleration intent. *)
Definition grounded (x y : Game) (vx : Velocity) (intent : Z)
  : Player.t collaborators :=
  Player.mk x y vx 0 intent Player.LEFT Player.HORIZONTAL true false false
    3%Z 0%Z Timer.INACTIVE.

Definition wall (row col : Tile) : Map.CollisionTile :=
  Map.mkCollisionTile row col Map.WALL_TILE.

(** The enumerators numbered in the order in which the switch of
    [initializeSprite] and the conditions of the code name them: one
    possible numbering. *)
Definition motionValue (m : Player.MotionType) : Z :=
  match m with
  | Player.WALKING => 0 | Player.STANDING => 1 | Player.INTERACTING => 2
  | Player.JUMPING => 3 | Player.FALLING => 4
  end%Z.
Definition horizontalValue (h : Player.HorizontalFacing) : Z :=
  match h with Player.LEFT => 0 | Player.RIGHT => 1 end%Z.
Definition verticalValue (v : Player.VerticalFacing) : Z :=
  match v with Player.UP => 0 | Player.DOWN => 1 | Player.HORIZONTAL => 2 end%Z.

(** Collaborators for the bat: half a tile of this grid, and a stand-in
    for the sine that keeps to the interval from -1 to 1 (the identity,
    cut off at both ends). *)
#[export] Instance batCollaborators : FirstCaveBat.Collaborators := {|
  FirstCaveBat.kHalfTile := kTileSize / 2;
  FirstCaveBat.degreesToRadians := fun degrees => degrees * (314159 / 18000000);
  FirstCaveBat.sin := fun a => Qmin 1 (Qmax (-1) a);
  FirstCaveBat.Sprite := N;
  FirstCaveBat.Sprite_update := fun elapsed sprite => (sprite + elapsed)%N
|}.

(** A bat of this grid. *)
Definition batAt (x y : Game) : FirstCaveBat.t batCollaborators :=
  FirstCaveBat.construct x y (fun _ => 0%N).

(** The middle of the player's sprite, and a bat that hits whatever
    rectangle starts left of its own x. *)
Definition center_x (p : Player.t collaborators) : Game :=
  Player.x_ p + kTileSize / 2.
Definition batCollidesWith (b : FirstCaveBat.t batCollaborators)
  (r : Rectangle.t) : bool :=
  Qltb (Rectangle.left r) (FirstCaveBat.x_ b).

End GridMap.

(** * Properties *)

(** ** Comparisons, minimum and maximum *)

Lemma Qltb_true (a b : Q) : Qltb a b = true <-> a < b.
Proof.
  unfold Qltb. rewrite Qlt_alt. destruct (a ?= b); split; congruence.
Qed.

Lemma Qltb_false (a b : Q) : Qltb a b = false <-> b <= a.
Proof.
  rewrite <- Bool.not_true_iff_false, Qltb_true. split.
  - apply Qnot_lt_le.
  - intros H1 H2. apply (Qlt_irrefl a). eapply Qlt_le_trans; eauto.
Qed.

Lemma Qltb_cases (a b : Q) :
  (Qltb a b = true /\ a < b) \/ (Qltb a b = false /\ b <= a).
Proof.
  destruct (Qltb a b) eqn:E.
  - left. split; trivial. now apply Qltb_true.
  - right. split; trivial. now apply Qltb_false.
Qed.

Lemma std_min_Qmin (a b : Q) : std_min a b == Qmin a b.
Proof.
  unfold std_min. destruct (Qltb_cases b a) as [[-> H] | [-> H]].
  - symmetry. apply Q.min_r. now apply Qlt_le_weak.
  - symmetry. now apply Q.min_l.
Qed.

Lemma std_max_Qmax (a b : Q) : std_max a b == Qmax a b.
Proof.
  unfold std_max. destruct (Qltb_cases a b) as [[-> H] | [-> H]].
  - symmetry. apply Q.max_r. now apply Qlt_le_weak.
  - symmetry. now apply Q.max_l.
Qed.

Lemma std_min_le_r (a b : Q) : std_min a b <= b.
Proof. rewrite std_min_Qmin. apply Q.le_min_r. Qed.

Lemma std_min_le_l (a b : Q) : std_min a b <= a.
Proof. rewrite std_min_Qmin. apply Q.le_min_l. Qed.

Lemma std_max_ge_r (a b : Q) : b <= std_max a b.
Proof. rewrite std_max_Qmax. apply Q.le_max_r. Qed.

Lemma std_max_ge_l (a b : Q) : a <= std_max a b.
Proof. rewrite std_max_Qmax. apply Q.le_max_l. Qed.

Lemma std_min_id (a b : Q) : a <= b -> std_min a b = a.
Proof.
  intros H. unfold std_min. destruct (Qltb_cases b a) as [[_ H'] | [-> _]]; trivial.
  exfalso. apply (Qlt_irrefl a). eapply Qle_lt_trans; eauto.
Qed.

Lemma ofMS_nonneg (t : units.MS) : 0 <= units.ofMS t.
Proof.
  unfold units.ofMS. change 0 with (inject_Z 0). rewrite <- Zle_Qle. lia.
Qed.

(** ** The wall scan *)

Lemma scanTiles_firstWall (tiles : list Map.CollisionTile) (info : CollisionInfo) :
  scanTiles tiles info =
  match firstWall tiles with
  | Some w => mkCollisionInfo true (Map.row w) (Map.col w)
  | None => info
  end.
Proof.
  unfold firstWall. induction tiles as [| tile rest IH]; simpl; trivial.
  destruct (Map.isWall tile); auto.
Qed.

Lemma getWallCollisionInfo_firstWall (map : Map.Provider) (r : Rectangle.t) :
  getWallCollisionInfo map r =
  match firstWall (map r) with
  | Some w => mkCollisionInfo true (Map.row w) (Map.col w)
  | None => mkCollisionInfo false 0%N 0%N
  end.
Proof. apply scanTiles_firstWall. Qed.

(** The tile that [firstWall] returns is a wall, it is in the sequence,
    and no wall stands before it. *)
Lemma firstWall_first (tiles : list Map.CollisionTile) (w : Map.CollisionTile) :
  firstWall tiles = Some w ->
  exists before after,
    tiles = before ++ w :: after /\
    Map.tile_type w = Map.WALL_TILE /\
    forall c, In c before -> Map.tile_type c = Map.AIR_TILE.
Proof.
  unfold firstWall. induction tiles as [| tile rest IH]; simpl; [discriminate |].
  destruct (Map.isWall tile) eqn:E.
  - intros [= <-]. exists [], rest. repeat split.
    + unfold Map.isWall in E. destruct (Map.tile_type tile); congruence.
    + intros c [].
  - intros H. destruct (IH H) as (before & after & -> & Hw & Hb).
    exists (tile :: before), after. repeat split; trivial.
    intros c [Hc | Hc]; auto. subst c.
    unfold Map.isWall in E. destruct (Map.tile_type tile); congruence.
Qed.

Lemma firstWall_none (tiles : list Map.CollisionTile) :
  firstWall tiles = None <->
  forall c, In c tiles -> Map.tile_type c = Map.AIR_TILE.
Proof.
  unfold firstWall. split.
  - intros H c Hc. pose proof (find_none _ _ H c Hc) as E.
    unfold Map.isWall in E. destruct (Map.tile_type c); congruence.
  - intros H. destruct (find Map.isWall tiles) as [w |] eqn:E; trivial.
    apply find_some in E. destruct E as [Hin Hw].
    apply H in Hin. unfold Map.isWall in Hw. rewrite Hin in Hw. discriminate.
Qed.

(** ** The player *)

Section PlayerProperties.

Import units Player.

Context {C : Collaborators}.

Implicit Types (p q : Player.t C) (map : Map.Provider) (t : MS).

(** *** The state classifier *)

(** C9.  [getSpriteState] reports INTERACTING when the interacting flag
    is set; otherwise, on the ground, WALKING for a non-zero acceleration
    intent and STANDING for a zero one; otherwise JUMPING for a negative
    vertical velocity and FALLING for a non-negative one.  The result
    carries the current horizontal and vertical facing, and the player is
    returned as it was given. *)
Theorem getSpriteState_classifies :
  forall p,
    snd (getSpriteState p) = p /\
    horizontal_facing (fst (getSpriteState p)) = horizontal_facing_ p /\
    vertical_facing (fst (getSpriteState p)) = vertical_facing_ p /\
    (interacting_ p = true ->
     motion_type (fst (getSpriteState p)) = INTERACTING) /\
    (interacting_ p = false -> on_ground_ p = true ->
     acceleration_x_ p <> 0%Z ->
     motion_type (fst (getSpriteState p)) = WALKING) /\
    (interacting_ p = false -> on_ground_ p = true ->
     acceleration_x_ p = 0%Z ->
     motion_type (fst (getSpriteState p)) = STANDING) /\
    (interacting_ p = false -> on_ground_ p = false ->
     velocity_y_ p < 0 ->
     motion_type (fst (getSpriteState p)) = JUMPING) /\
    (interacting_ p = false -> on_ground_ p = false ->
     0 <= velocity_y_ p ->
     motion_type (fst (getSpriteState p)) = FALLING).
Proof.
  intros p. unfold getSpriteState, on_ground. simpl.
  repeat split.
  - intros ->. reflexivity.
  - intros -> -> H. apply Z.eqb_neq in H. now rewrite H.
  - intros -> -> ->. reflexivity.
  - intros -> -> H. apply Qltb_true in H. now rewrite H.
  - intros -> -> H. apply Qltb_false in H. now rewrite H.
Qed.

(** The motion the classifier reports. *)
Lemma motion_of_getSpriteState p :
  motion_type (fst (getSpriteState p)) =
  if interacting_ p then INTERACTING
  else if on_ground_ p then
    (if negb (acceleration_x_ p =? 0)%Z then WALKING else STANDING)
  else (if Qltb (velocity_y_ p) 0 then JUMPING else FALLING).
Proof. reflexivity. Qed.

(** *** Damage and invincibility *)



(** *** The steps of the horizontal update never fail *)

Lemma Qle_bool_refl0 : Qle_bool 0 0 = true.
Proof. reflexivity. Qed.

Lemma updateX_right_eq map delta p :
  0 <= delta ->
  updateX_right map delta p =
  Some (match firstWall (map (rightCollisionRect p delta)) with
        | Some w =>
            set_velocity_x 0
              (set_x (tileToGame (Map.col w) - Rectangle.right kCollisionX) p)
        | None => set_x (x_ p + delta) p
        end).
Proof.
  intros H. unfold updateX_right, rightCollision.
  apply Qle_bool_iff in H. rewrite H. simpl.
  rewrite getWallCollisionInfo_firstWall.
  now destruct (firstWall _).
Qed.

Lemma updateX_left_eq map delta p :
  delta <= 0 ->
  updateX_left map delta p =
  Some (match firstWall (map (leftCollisionRect p delta)) with
        | Some w =>
            set_velocity_x 0
              (set_x (tileToGame (Map.col w) + Rectangle.right kCollisionX) p)
        | None => set_x (x_ p + delta) p
        end).
Proof.
  intros H. unfold updateX_left, leftCollision.
  apply Qle_bool_iff in H. rewrite H. simpl.
  rewrite getWallCollisionInfo_firstWall.
  now destruct (firstWall _).
Qed.

Lemma updateX_recheck_left_eq map p :
  updateX_recheck_left map p =
  Some (match firstWall (map (leftCollisionRect p 0)) with
        | Some w =>
            set_x (tileToGame (Map.col w) + Rectangle.right kCollisionX) p
        | None => p
        end).
Proof.
  unfold updateX_recheck_left, leftCollision. rewrite Qle_bool_refl0. simpl.
  rewrite getWallCollisionInfo_firstWall.
  now destruct (firstWall _).
Qed.

Lemma updateX_recheck_right_eq map p :
  updateX_recheck_right map p =
  Some (match firstWall (map (rightCollisionRect p 0)) with
        | Some w =>
            set_on_ground true
              (set_x (tileToGame (Map.col w) - Rectangle.right kCollisionX) p)
        | None => p
        end).
Proof.
  unfold updateX_recheck_right, rightCollision. rewrite Qle_bool_refl0. simpl.
  rewrite getWallCollisionInfo_firstWall.
  now destruct (firstWall _).
Qed.

(** The velocity step of [updateX] writes [velocity_x_] and nothing else. *)
Lemma updateX_velocity_frame t p :
  updateX_velocity t p = set_velocity_x (velocity_x_ (updateX_velocity t p)) p.
Proof.
  unfold updateX_velocity. simpl.
  destruct (acceleration_x_ p <? 0)%Z; [reflexivity |].
  destruct (acceleration_x_ p >? 0)%Z; [reflexivity |].
  unfold on_ground. simpl. destruct (on_ground_ p); reflexivity.
Qed.

(** The horizontal update in the branch "delta > 0". *)
Lemma updateX_right_branch t map p :
  let p1 := updateX_velocity t p in
  let delta := deltaX t p1 in
  0 < delta ->
  exists p2 p',
    updateX_right map delta p1 = Some p2 /\
    updateX_recheck_left map p2 = Some p' /\
    updateX t map p = Some p'.
Proof.
  intros p1 delta H.
  pose proof (updateX_right_eq map delta p1 (Qlt_le_weak _ _ H)) as E1.
  pose proof (updateX_recheck_left_eq map) as E2.
  unfold updateX. fold p1. fold delta.
  apply Qltb_true in H. rewrite H. rewrite E1. simpl.
  eexists. eexists. split; [reflexivity |]. split; apply E2.
Qed.

(** The horizontal update in the branch "delta <= 0". *)
Lemma updateX_left_branch t map p :
  let p1 := updateX_velocity t p in
  let delta := deltaX t p1 in
  delta <= 0 ->
  exists p2 p',
    updateX_left map delta p1 = Some p2 /\
    updateX_recheck_right map p2 = Some p' /\
    updateX t map p = Some p'.
Proof.
  intros p1 delta H.
  pose proof (updateX_left_eq map delta p1 H) as E1.
  pose proof (updateX_recheck_right_eq map) as E2.
  unfold updateX. fold p1. fold delta.
  apply Qltb_false in H. rewrite H. rewrite E1. simpl.
  eexists. eexists. split; [reflexivity |]. split; apply E2.
Qed.

Lemma updateX_total t map p : exists p', updateX t map p = Some p'.
Proof.
  destruct (Qltb_cases 0 (deltaX t (updateX_velocity t p))) as [[_ H] | [_ H]].
  - destruct (updateX_right_branch t map p H) as (p2 & p' & _ & _ & E). eauto.
  - destruct (updateX_left_branch t map p H) as (p2 & p' & _ & _ & E). eauto.
Qed.

Lemma updateX_velocity_x t p : x_ (updateX_velocity t p) = x_ p.
Proof. now rewrite updateX_velocity_frame. Qed.

Lemma updateX_velocity_on_ground t p :
  on_ground_ (updateX_velocity t p) = on_ground_ p.
Proof. now rewrite updateX_velocity_frame. Qed.

(** *** Moving right *)

(** C1, as amended.  In a horizontal update whose delta is strictly
    positive, the reaction to the query on the right collision rectangle
    extended by delta sets [x] so that the right collision edge is on the
    left edge of the first wall tile of the provider's order, and zeroes
    [velocity_x]; with no wall tile in the answer, [x] grows by exactly
    delta.  The horizontal velocity stands as the reaction left it.  The
    position stands too when the re-check on the left edge finds no wall;
    when it finds one, [x] is set from that wall instead. *)
Theorem updateX_moving_right :
  forall t map p,
    let p1 := updateX_velocity t p in
    let delta := deltaX t p1 in
    0 < delta ->
    exists p2 p',
      updateX_right map delta p1 = Some p2 /\
      updateX_recheck_left map p2 = Some p' /\
      updateX t map p = Some p' /\
      match firstWall (map (rightCollisionRect p1 delta)) with
      | Some w =>
          x_ p2 + Rectangle.right kCollisionX == tileToGame (Map.col w) /\
          velocity_x_ p2 = 0
      | None =>
          x_ p2 = x_ p + delta /\ velocity_x_ p2 = velocity_x_ p1
      end /\
      velocity_x_ p' = velocity_x_ p2 /\
      match firstWall (map (leftCollisionRect p2 0)) with
      | None => x_ p' = x_ p2
      | Some w' =>
          x_ p' = tileToGame (Map.col w') + Rectangle.right kCollisionX
      end.
Proof.
  intros t map p p1 delta H.
  destruct (updateX_right_branch t map p H) as (p2 & p' & E1 & E2 & E3).
  fold p1 in E1. fold delta in E1.
  exists p2, p'. repeat (split; [assumption |]).
  rewrite updateX_right_eq in E1 by now apply Qlt_le_weak.
  rewrite updateX_recheck_left_eq in E2.
  injection E1 as E1. injection E2 as E2.
  split; [| split].
  - subst p2. destruct (firstWall (map (rightCollisionRect p1 delta))); simpl.
    + split; [ring | reflexivity].
    + split; [| reflexivity]. unfold p1. now rewrite updateX_velocity_x.
  - subst p'. now destruct (firstWall (map (leftCollisionRect p2 0))).
  - subst p'. now destruct (firstWall (map (leftCollisionRect p2 0))).
Qed.

(** *** The re-checks of the two branches *)

(** C5.  In the branch "delta <= 0" a wall found by the re-check on the
    right edge sets [x] so that the right collision edge is on that
    wall's left edge, and sets the grounded flag.  In the branch
    "delta > 0" the re-check on the left edge writes [x] only (from the
    wall it finds, if any), and the whole update leaves the grounded flag
    as it was. *)
Theorem updateX_recheck_asymmetry :
  forall t map p,
    let p1 := updateX_velocity t p in
    let delta := deltaX t p1 in
    (delta <= 0 ->
     exists p2 p',
       updateX_left map delta p1 = Some p2 /\
       updateX_recheck_right map p2 = Some p' /\
       updateX t map p = Some p' /\
       forall w,
         firstWall (map (rightCollisionRect p2 0)) = Some w ->
         x_ p' + Rectangle.right kCollisionX == tileToGame (Map.col w) /\
         on_ground_ p' = true) /\
    (0 < delta ->
     exists p2 p',
       updateX_right map delta p1 = Some p2 /\
       updateX_recheck_left map p2 = Some p' /\
       updateX t map p = Some p' /\
       p' = set_x (x_ p') p2 /\
       on_ground_ p2 = on_ground_ p /\
       on_ground_ p' = on_ground_ p /\
       forall w,
         firstWall (map (leftCollisionRect p2 0)) = Some w ->
         x_ p' = tileToGame (Map.col w) + Rectangle.right kCollisionX).
Proof.
  intros t map p p1 delta. split; intros H.
  - destruct (updateX_left_branch t map p H) as (p2 & p' & E1 & E2 & E3).
    exists p2, p'. repeat (split; [assumption |]).
    intros w Hw. rewrite updateX_recheck_right_eq, Hw in E2.
    injection E2 as E2. subst p'. simpl. split; [ring | reflexivity].
  - destruct (updateX_right_branch t map p H) as (p2 & p' & E1 & E2 & E3).
    fold p1 in E1. fold delta in E1.
    exists p2, p'. repeat (split; [assumption |]).
    rewrite updateX_right_eq in E1 by now apply Qlt_le_weak.
    rewrite updateX_recheck_left_eq in E2.
    injection E1 as E1. injection E2 as E2.
    assert (G2 : on_ground_ p2 = on_ground_ p).
    { subst p2. unfold p1.
      destruct (firstWall (map (rightCollisionRect _ delta))); simpl;
        apply updateX_velocity_on_ground. }
    repeat split.
    + subst p'. destruct (firstWall (map (leftCollisionRect p2 0)));
        destruct p2; reflexivity.
    + assumption.
    + rewrite <- G2. subst p'.
      now destruct (firstWall (map (leftCollisionRect p2 0))).
    + intros w Hw. rewrite Hw in E2. now subst p'.
Qed.

(** *** The velocity step of the horizontal update *)

Lemma base_acceleration_pos p :
  0 < (if on_ground p then kWalkingAcceleration else kAirAcceleration).
Proof. destruct (on_ground p); reflexivity. Qed.

Lemma updateX_velocity_negative t p :
  (acceleration_x_ p < 0)%Z ->
  velocity_x_ (updateX_velocity t p) =
  std_max (velocity_x_ p + accelerationX p * ofMS t) (- kMaxSpeedX).
Proof.
  intros H. unfold updateX_velocity. simpl.
  apply Z.ltb_lt in H. now rewrite H.
Qed.

Lemma updateX_velocity_positive t p :
  (0 < acceleration_x_ p)%Z ->
  velocity_x_ (updateX_velocity t p) =
  std_min (velocity_x_ p + accelerationX p * ofMS t) kMaxSpeedX.
Proof.
  intros H. unfold updateX_velocity. simpl.
  assert (H1 : (acceleration_x_ p <? 0)%Z = false) by (apply Z.ltb_ge; lia).
  assert (H2 : (acceleration_x_ p >? 0)%Z = true) by (apply Z.gtb_lt; lia).
  now rewrite H1, H2.
Qed.

Lemma updateX_velocity_friction t p :
  acceleration_x_ p = 0%Z -> on_ground_ p = true ->
  velocity_x_ (updateX_velocity t p) =
  let v := velocity_x_ p + accelerationX p * ofMS t in
  if Qltb 0 v then std_max 0 (v - kFriction * ofMS t)
  else std_min 0 (v + kFriction * ofMS t).
Proof.
  intros H G. unfold updateX_velocity, accelerationX, on_ground. simpl.
  rewrite H, G. reflexivity.
Qed.

Lemma accelerationX_sign t p :
  ((acceleration_x_ p < 0)%Z -> accelerationX p * ofMS t <= 0) /\
  ((0 < acceleration_x_ p)%Z -> 0 <= accelerationX p * ofMS t) /\
  (acceleration_x_ p = 0%Z -> accelerationX p * ofMS t == 0).
Proof.
  pose proof (ofMS_nonneg t) as Ht.
  pose proof (base_acceleration_pos p) as Ha.
  unfold accelerationX, ofInt.
  set (a := if on_ground p then _ else _) in *.
  set (e := ofMS t) in *.
  split; [| split]; intros H.
  - assert (Hi : inject_Z (acceleration_x_ p) <= 0)
      by (change 0 with (inject_Z 0); rewrite <- Zle_Qle; lia).
    assert (Hai : a * inject_Z (acceleration_x_ p) <= 0) by nra.
    nra.
  - assert (Hi : 0 <= inject_Z (acceleration_x_ p))
      by (change 0 with (inject_Z 0); rewrite <- Zle_Qle; lia).
    assert (Hai : 0 <= a * inject_Z (acceleration_x_ p)) by nra.
    nra.
  - rewrite H. change (inject_Z 0) with 0. ring.
Qed.

(** C2, as amended.  With a non-zero acceleration intent the velocity
    step clamps on the side of the intent only: after it,
    [velocity_x >= - kMaxSpeedX] for a negative intent and
    [velocity_x <= kMaxSpeedX] for a positive one.  The bound
    [|velocity_x| <= kMaxSpeedX] holds after the step whenever it held
    before it. *)
Theorem updateX_velocity_clamp :
  forall t p,
    acceleration_x_ p <> 0%Z ->
    ((acceleration_x_ p < 0)%Z ->
     - kMaxSpeedX <= velocity_x_ (updateX_velocity t p)) /\
    ((0 < acceleration_x_ p)%Z ->
     velocity_x_ (updateX_velocity t p) <= kMaxSpeedX) /\
    (Qabs (velocity_x_ p) <= kMaxSpeedX ->
     Qabs (velocity_x_ (updateX_velocity t p)) <= kMaxSpeedX).
Proof.
  intros t p Hnz.
  destruct (accelerationX_sign t p) as (Sneg & Spos & _).
  assert (K : - kMaxSpeedX <= kMaxSpeedX) by (vm_compute; discriminate).
  split; [| split].
  - intros H. rewrite (updateX_velocity_negative t p H). apply std_max_ge_r.
  - intros H. rewrite (updateX_velocity_positive t p H). apply std_min_le_r.
  - intros B. apply Qabs_Qle_condition in B. destruct B as [B1 B2].
    apply Qabs_Qle_condition.
    destruct (Z.lt_total (acceleration_x_ p) 0) as [H | [H | H]];
      [| contradiction |].
    + rewrite (updateX_velocity_negative t p H).
      split; [apply std_max_ge_r |].
      specialize (Sneg H). rewrite std_max_Qmax.
      apply Q.max_lub; [lra | assumption].
    + rewrite (updateX_velocity_positive t p H).
      split; [| apply std_min_le_r].
      specialize (Spos H). rewrite std_min_Qmin.
      apply Q.min_glb; [lra | assumption].
Qed.


(** *** The steps of the vertical update never fail *)

Lemma updateY_down_eq map delta p :
  0 <= delta ->
  updateY_down map delta p =
  Some (match firstWall (map (bottomCollisionRect p delta)) with
        | Some w =>
            set_on_ground true
              (set_velocity_y 0
                 (set_y (tileToGame (Map.row w) - Rectangle.bottom kCollisionY) p))
        | None => set_on_ground false (set_y (y_ p + delta) p)
        end).
Proof.
  intros H. unfold updateY_down, bottomCollision.
  apply Qle_bool_iff in H. rewrite H. simpl.
  rewrite getWallCollisionInfo_firstWall.
  now destruct (firstWall _).
Qed.

Lemma updateY_up_eq map delta p :
  delta <= 0 ->
  updateY_up map delta p =
  Some (match firstWall (map (topCollisionRect p delta)) with
        | Some w =>
            set_on_ground false
              (set_velocity_y 0
                 (set_y (tileToGame (Map.row w) + Rectangle.height kCollisionY) p))
        | None => set_on_ground false (set_y (y_ p + delta) p)
        end).
Proof.
  intros H. unfold updateY_up, topCollision.
  apply Qle_bool_iff in H. rewrite H. simpl.
  rewrite getWallCollisionInfo_firstWall.
  now destruct (firstWall _).
Qed.

Lemma updateY_recheck_top_eq map p :
  updateY_recheck_top map p =
  Some (match firstWall (map (topCollisionRect p 0)) with
        | Some w =>
            set_y (tileToGame (Map.row w) + Rectangle.height kCollisionY) p
        | None => p
        end).
Proof.
  unfold updateY_recheck_top, topCollision. rewrite Qle_bool_refl0. simpl.
  rewrite getWallCollisionInfo_firstWall.
  now destruct (firstWall _).
Qed.

Lemma updateY_recheck_bottom_eq map p :
  updateY_recheck_bottom map p =
  Some (match firstWall (map (bottomCollisionRect p 0)) with
        | Some w =>
            set_on_ground true
              (set_y (tileToGame (Map.row w) - Rectangle.bottom kCollisionY) p)
        | None => p
        end).
Proof.
  unfold updateY_recheck_bottom, bottomCollision. rewrite Qle_bool_refl0. simpl.
  rewrite getWallCollisionInfo_firstWall.
  now destruct (firstWall _).
Qed.

(** The vertical update in the branch "delta > 0". *)
Lemma updateY_down_branch t map p :
  let p1 := updateY_velocity t p in
  let delta := deltaY t p1 in
  0 < delta ->
  exists p2 p',
    updateY_down map delta p1 = Some p2 /\
    updateY_recheck_top map p2 = Some p' /\
    updateY t map p = Some p'.
Proof.
  intros p1 delta H.
  pose proof (updateY_down_eq map delta p1 (Qlt_le_weak _ _ H)) as E1.
  pose proof (updateY_recheck_top_eq map) as E2.
  unfold updateY. fold p1. fold delta.
  apply Qltb_true in H. rewrite H. rewrite E1. simpl.
  eexists. eexists. split; [reflexivity |]. split; apply E2.
Qed.

(** The vertical update in the branch "delta <= 0". *)
Lemma updateY_up_branch t map p :
  let p1 := updateY_velocity t p in
  let delta := deltaY t p1 in
  delta <= 0 ->
  exists p2 p',
    updateY_up map delta p1 = Some p2 /\
    updateY_recheck_bottom map p2 = Some p' /\
    updateY t map p = Some p'.
Proof.
  intros p1 delta H.
  pose proof (updateY_up_eq map delta p1 H) as E1.
  pose proof (updateY_recheck_bottom_eq map) as E2.
  unfold updateY. fold p1. fold delta.
  apply Qltb_false in H. rewrite H. rewrite E1. simpl.
  eexists. eexists. split; [reflexivity |]. split; apply E2.
Qed.

Lemma updateY_total t map p : exists p', updateY t map p = Some p'.
Proof.
  destruct (Qltb_cases 0 (deltaY t (updateY_velocity t p))) as [[_ H] | [_ H]].
  - destruct (updateY_down_branch t map p H) as (p2 & p' & _ & _ & E). eauto.
  - destruct (updateY_up_branch t map p H) as (p2 & p' & _ & _ & E). eauto.
Qed.

(** What the vertical update does to the velocity and to the grounded
    flag, branch by branch. *)
Lemma updateY_cases t map p :
  let p1 := updateY_velocity t p in
  let delta := deltaY t p1 in
  exists p',
    updateY t map p = Some p' /\
    (0 < delta ->
     match firstWall (map (bottomCollisionRect p1 delta)) with
     | Some _ => on_ground_ p' = true /\ velocity_y_ p' = 0
     | None => on_ground_ p' = false /\ velocity_y_ p' = velocity_y_ p1
     end) /\
    (delta <= 0 ->
     exists p2,
       updateY_up map delta p1 = Some p2 /\
       on_ground_ p2 = false /\
       match firstWall (map (topCollisionRect p1 delta)) with
       | Some _ => velocity_y_ p' = 0
       | None => velocity_y_ p' = velocity_y_ p1
       end /\
       on_ground_ p' =
       match firstWall (map (bottomCollisionRect p2 0)) with
       | Some _ => true
       | None => false
       end).
Proof.
  intros p1 delta.
  destruct (Qltb_cases 0 delta) as [[_ H] | [_ H]].
  - destruct (updateY_down_branch t map p H) as (p2 & p' & E1 & E2 & E3).
    fold p1 in E1. fold delta in E1.
    exists p'. split; [assumption |]. split; [| intros H'; exfalso; lra].
    intros _.
    rewrite updateY_down_eq in E1 by now apply Qlt_le_weak.
    rewrite updateY_recheck_top_eq in E2.
    injection E1 as E1. injection E2 as E2. subst p' p2.
    destruct (firstWall (map (bottomCollisionRect p1 delta))); simpl;
      match goal with
      | |- context [firstWall (map (topCollisionRect ?q 0))] =>
          destruct (firstWall (map (topCollisionRect q 0)))
      end; simpl; split; reflexivity.
  - destruct (updateY_up_branch t map p H) as (p2 & p' & E1 & E2 & E3).
    fold p1 in E1. fold delta in E1.
    exists p'. split; [assumption |]. split; [intros H'; exfalso; lra |].
    intros _. exists p2. split; [assumption |].
    rewrite updateY_up_eq in E1 by assumption.
    rewrite updateY_recheck_bottom_eq in E2.
    injection E1 as E1. injection E2 as E2.
    assert (G2 : on_ground_ p2 = false).
    { subst p2. now destruct (firstWall (map (topCollisionRect p1 delta))). }
    split; [assumption |]. split.
    + subst p'. 
      assert (V : velocity_y_ p2 =
                  match firstWall (map (topCollisionRect p1 delta)) with
                  | Some _ => 0 | None => velocity_y_ p1 end).
      { subst p2. now destruct (firstWall (map (topCollisionRect p1 delta))). }
      destruct (firstWall (map (bottomCollisionRect p2 0))); simpl;
        rewrite V; now destruct (firstWall (map (topCollisionRect p1 delta))).
    + subst p'. destruct (firstWall (map (bottomCollisionRect p2 0))); simpl;
        [reflexivity | assumption].
Qed.

(** *** What the two updates leave alone *)

Lemma updateX_sameRest t map p p' :
  updateX t map p = Some p' ->
  sameRest p p' /\ y_ p' = y_ p /\ velocity_y_ p' = velocity_y_ p.
Proof.
  intros E.
  assert (F : sameRest p (updateX_velocity t p) /\
              y_ (updateX_velocity t p) = y_ p /\
              velocity_y_ (updateX_velocity t p) = velocity_y_ p).
  { rewrite updateX_velocity_frame. unfold sameRest. simpl. tauto. }
  revert F. set (p1 := updateX_velocity t p). intros F.
  destruct (Qltb_cases 0 (deltaX t p1)) as [[_ H] | [_ H]].
  - destruct (updateX_right_branch t map p H) as (p2 & q & E1 & E2 & E3).
    fold p1 in E1. rewrite E in E3. injection E3 as <-.
    rewrite updateX_right_eq in E1 by now apply Qlt_le_weak.
    rewrite updateX_recheck_left_eq in E2.
    injection E1 as E1. injection E2 as E2. subst p' p2.
    destruct (firstWall (map (rightCollisionRect p1 _)));
      match goal with
      | |- context [firstWall (map (leftCollisionRect ?q 0))] =>
          destruct (firstWall (map (leftCollisionRect q 0)))
      end; exact F.
  - destruct (updateX_left_branch t map p H) as (p2 & q & E1 & E2 & E3).
    fold p1 in E1. rewrite E in E3. injection E3 as <-.
    rewrite updateX_left_eq in E1 by assumption.
    rewrite updateX_recheck_right_eq in E2.
    injection E1 as E1. injection E2 as E2. subst p' p2.
    destruct (firstWall (map (leftCollisionRect p1 _)));
      match goal with
      | |- context [firstWall (map (rightCollisionRect ?q 0))] =>
          destruct (firstWall (map (rightCollisionRect q 0)))
      end; exact F.
Qed.

Lemma updateY_sameRest t map p p' :
  updateY t map p = Some p' ->
  sameRest p p' /\ x_ p' = x_ p /\ velocity_x_ p' = velocity_x_ p.
Proof.
  intros E.
  assert (F : sameRest p (updateY_velocity t p) /\
              x_ (updateY_velocity t p) = x_ p /\
              velocity_x_ (updateY_velocity t p) = velocity_x_ p).
  { unfold updateY_velocity, sameRest. simpl. tauto. }
  revert F. set (p1 := updateY_velocity t p). intros F.
  destruct (Qltb_cases 0 (deltaY t p1)) as [[_ H] | [_ H]].
  - destruct (updateY_down_branch t map p H) as (p2 & q & E1 & E2 & E3).
    fold p1 in E1. rewrite E in E3. injection E3 as <-.
    rewrite updateY_down_eq in E1 by now apply Qlt_le_weak.
    rewrite updateY_recheck_top_eq in E2.
    injection E1 as E1. injection E2 as E2. subst p' p2.
    destruct (firstWall (map (bottomCollisionRect p1 _)));
      match goal with
      | |- context [firstWall (map (topCollisionRect ?q 0))] =>
          destruct (firstWall (map (topCollisionRect q 0)))
      end; exact F.
  - destruct (updateY_up_branch t map p H) as (p2 & q & E1 & E2 & E3).
    fold p1 in E1. rewrite E in E3. injection E3 as <-.
    rewrite updateY_up_eq in E1 by assumption.
    rewrite updateY_recheck_bottom_eq in E2.
    injection E1 as E1. injection E2 as E2. subst p' p2.
    destruct (firstWall (map (topCollisionRect p1 _)));
      match goal with
      | |- context [firstWall (map (bottomCollisionRect ?q 0))] =>
          destruct (firstWall (map (bottomCollisionRect q 0)))
      end; exact F.
Qed.

(** *** The vertical velocity *)

Lemma gravityY_jump p :
  jump_active_ p = true -> velocity_y_ p < 0 -> gravityY p = kJumpGravity.
Proof.
  intros J V. unfold gravityY. apply Qltb_true in V. now rewrite J, V.
Qed.

Lemma gravityY_standard p :
  jump_active_ p = false \/ 0 <= velocity_y_ p -> gravityY p = kGravity.
Proof.
  unfold gravityY. intros [J | V].
  - now rewrite J.
  - apply Qltb_false in V. rewrite V. now destruct (jump_active_ p).
Qed.

(** C3, as amended.  The velocity step of the vertical update sets
    [velocity_y] to [min(velocity_y + g * elapsed, kMaxSpeedY)], where [g]
    is [kJumpGravity] exactly when the jump is held and [velocity_y] is
    negative, and [kGravity] otherwise.  After the update [velocity_y] is
    that value when the query in the direction of motion finds no wall,
    and zero when it finds one.  So it never exceeds [kMaxSpeedY] after
    the update.  Nothing clamps it from below: without a wall above, an
    integrated velocity that is not above [kMaxSpeedY] is the velocity
    after the update, however negative. *)
Theorem updateY_velocity_after_update :
  forall t map p,
    let g :=
      if jump_active_ p && Qltb (velocity_y_ p) 0
      then kJumpGravity else kGravity in
    let v' := std_min (velocity_y_ p + g * ofMS t) kMaxSpeedY in
    let p1 := set_velocity_y v' p in
    let delta := v' * ofMS t in
    (jump_active_ p = true /\ velocity_y_ p < 0 -> g = kJumpGravity) /\
    (jump_active_ p = false \/ 0 <= velocity_y_ p -> g = kGravity) /\
    v' == Qmin (velocity_y_ p + g * ofMS t) kMaxSpeedY /\
    updateY_velocity t p = p1 /\
    exists p',
      updateY t map p = Some p' /\
      (0 < delta ->
       match firstWall (map (bottomCollisionRect p1 delta)) with
       | Some _ => velocity_y_ p' = 0
       | None => velocity_y_ p' = v'
       end) /\
      (delta <= 0 ->
       match firstWall (map (topCollisionRect p1 delta)) with
       | Some _ => velocity_y_ p' = 0
       | None => velocity_y_ p' = v'
       end) /\
      velocity_y_ p' <= kMaxSpeedY /\
      (delta <= 0 ->
       firstWall (map (topCollisionRect p1 delta)) = None ->
       velocity_y_ p + g * ofMS t <= kMaxSpeedY ->
       velocity_y_ p' = velocity_y_ p + g * ofMS t).
Proof.
  intros t map p g v' p1 delta.
  change g with (gravityY p).
  split; [intros [J V]; now apply gravityY_jump |].
  split; [apply gravityY_standard |].
  split; [apply std_min_Qmin |].
  split; [reflexivity |].
  destruct (updateY_cases t map p) as (p' & U & D & A).
  change (updateY_velocity t p) with p1 in D, A.
  change (deltaY t p1) with delta in D, A.
  change (velocity_y_ p1) with v' in D, A.
  exists p'. split; [assumption |].
  assert (Down : 0 < delta ->
                 match firstWall (map (bottomCollisionRect p1 delta)) with
                 | Some _ => velocity_y_ p' = 0
                 | None => velocity_y_ p' = v'
                 end).
  { intros H. specialize (D H).
    destruct (firstWall (map (bottomCollisionRect p1 delta)));
      now destruct D. }
  assert (Up : delta <= 0 ->
               match firstWall (map (topCollisionRect p1 delta)) with
               | Some _ => velocity_y_ p' = 0
               | None => velocity_y_ p' = v'
               end).
  { intros H. destruct (A H) as (p2 & _ & _ & V & _). exact V. }
  split; [exact Down |]. split; [exact Up |].
  assert (B : v' <= kMaxSpeedY) by apply std_min_le_r.
  assert (Z : 0 <= kMaxSpeedY) by (vm_compute; discriminate).
  split.
  - destruct (Qltb_cases 0 delta) as [[_ H] | [_ H]].
    + specialize (Down H).
      destruct (firstWall (map (bottomCollisionRect p1 delta)));
        rewrite Down; assumption.
    + specialize (Up H).
      destruct (firstWall (map (topCollisionRect p1 delta)));
        rewrite Up; assumption.
  - intros H W L. specialize (Up H). rewrite W in Up. rewrite Up.
    unfold v'. now apply std_min_id.
Qed.

(** *** The grounded flag *)

(** C4, as amended.  After every vertical update: in the branch
    "delta > 0", a wall found below sets the grounded flag and zeroes
    [velocity_y], and no wall below clears the flag.  In the branch
    "delta <= 0", a wall found above zeroes [velocity_y]; the reaction
    clears the grounded flag whether a wall was found or not, and the
    re-check on the bottom edge then sets it again when it finds a
    wall: the flag ends up set exactly when that re-check finds one. *)
Theorem updateY_grounded :
  forall t map p,
    let p1 := updateY_velocity t p in
    let delta := deltaY t p1 in
    exists p',
      updateY t map p = Some p' /\
      (0 < delta ->
       match firstWall (map (bottomCollisionRect p1 delta)) with
       | Some _ => on_ground_ p' = true /\ velocity_y_ p' = 0
       | None => on_ground_ p' = false /\ velocity_y_ p' = velocity_y_ p1
       end) /\
      (delta <= 0 ->
       exists p2,
         updateY_up map delta p1 = Some p2 /\
         on_ground_ p2 = false /\
         match firstWall (map (topCollisionRect p1 delta)) with
         | Some _ => velocity_y_ p' = 0
         | None => velocity_y_ p' = velocity_y_ p1
         end /\
         on_ground_ p' =
         match firstWall (map (bottomCollisionRect p2 0)) with
         | Some _ => true
         | None => false
         end).
Proof. intros t map p. apply updateY_cases. Qed.

(** *** Frames and the invincibility timer *)





(** *** Jumping *)

Lemma updateY_after_startJump t map p :
  on_ground_ p = true ->
  (t < 800)%N ->
  let p1 := updateY_velocity t (startJump p) in
  velocity_y_ p1 < 0 /\ deltaY t p1 <= 0.
Proof.
  intros G L p1.
  assert (V : velocity_y_ p1 < 0).
  { unfold p1, updateY_velocity, startJump, on_ground. simpl. rewrite G. simpl.
    unfold gravityY. simpl.
    eapply Qle_lt_trans; [apply std_min_le_l |].
    assert (T : ofMS t < 800).
    { unfold ofMS. change 800 with (inject_Z 800). rewrite <- Zlt_Qlt. lia. }
    change (Qltb (- kJumpSpeed) 0) with true. simpl.
    unfold kJumpSpeed, kJumpGravity. lra. }
  split; [assumption |].
  unfold deltaY. pose proof (ofMS_nonneg t). nra.
Qed.

(** C8, as amended.  [startJump] sets the jump-held flag; it sets
    [velocity_y] to [- kJumpSpeed] when the player is on the ground and
    leaves it alone otherwise.  [stopJump] clears the jump-held flag and
    writes nothing else.  Right after a [startJump] on the ground the
    grounded flag is still set, and the classifier reports WALKING or
    STANDING, by the acceleration intent; it reports JUMPING after a
    vertical update of less than 800 ms that finds no wall above and
    leaves the grounded flag cleared. *)
Theorem startJump_stopJump_spec :
  forall p,
    jump_active_ (startJump p) = true /\
    (on_ground_ p = true -> velocity_y_ (startJump p) = - kJumpSpeed) /\
    (on_ground_ p = false -> velocity_y_ (startJump p) = velocity_y_ p) /\
    stopJump p = set_jump_active false p /\
    jump_active_ (stopJump p) = false /\
    x_ (stopJump p) = x_ p /\ y_ (stopJump p) = y_ p /\
    velocity_x_ (stopJump p) = velocity_x_ p /\
    velocity_y_ (stopJump p) = velocity_y_ p /\
    (on_ground_ p = true ->
     motion_type (fst (getSpriteState (startJump p))) =
     if negb (acceleration_x_ p =? 0)%Z then WALKING else STANDING) /\
    (on_ground_ p = true ->
     forall t map,
       (t < 800)%N ->
       let p1 := updateY_velocity t (startJump p) in
       exists p',
         updateY t map (startJump p) = Some p' /\
         (firstWall (map (topCollisionRect p1 (deltaY t p1))) = None ->
          on_ground_ p' = false ->
          motion_type (fst (getSpriteState p')) = JUMPING)).
Proof.
  intros p.
  split; [unfold startJump; now destruct (on_ground _) |].
  split; [intros G; unfold startJump, on_ground; simpl; now rewrite G |].
  split; [intros G; unfold startJump, on_ground; simpl; now rewrite G |].
  do 6 (split; [reflexivity |]).
  split.
  - intros G. rewrite motion_of_getSpriteState.
    unfold startJump, on_ground. simpl. rewrite G. simpl. rewrite G.
    reflexivity.
  - intros G t map L p1.
    destruct (updateY_after_startJump t map p G L) as [V D]. fold p1 in V, D.
    destruct (updateY_cases t map (startJump p)) as (p' & U & _ & A).
    fold p1 in A. exists p'. split; [assumption |].
    intros W G'. destruct (A D) as (p2 & _ & _ & Vy & _).
    rewrite W in Vy.
    apply updateY_sameRest in U. destruct U as ((_ & _ & _ & _ & I & _) & _).
    rewrite motion_of_getSpriteState, I, G', Vy.
    assert (I0 : interacting_ (startJump p) = false).
    { unfold startJump. now destruct (on_ground _). }
    rewrite I0. apply Qltb_true in V. now rewrite V.
Qed.

End PlayerProperties.

(** ** The bat *)

Section BatProperties.

Import units FirstCaveBat.

Context {C : FirstCaveBat.Collaborators}.

(** C10.  [FirstCaveBat::update] leaves [x_] and [center_y_] as they
    were; it advances [flight_angle_] by [kAngularVelocity * elapsed_time]
    and sets [y_] to [center_y_ + kFlightAmplitude * sin] of the new angle
    (in degrees, converted to radians); the facing is LEFT exactly when
    [x_ + kHalfTile] exceeds the player's x. *)
Theorem FirstCaveBat_update_spec :
  forall (elapsed_time : MS) (player_x : Game) (b : FirstCaveBat.t C),
    let b' := update elapsed_time player_x b in
    x_ b' = x_ b /\
    center_y_ b' = center_y_ b /\
    flight_angle_ b' = flight_angle_ b + kAngularVelocity * ofMS elapsed_time /\
    y_ b' = center_y_ b'
            + kFlightAmplitude * sin (degreesToRadians (flight_angle_ b')) /\
    (facing_ b' = LEFT <-> player_x < x_ b + kHalfTile) /\
    (facing_ b' = RIGHT <-> x_ b + kHalfTile <= player_x).
Proof.
  intros elapsed_time player_x b b'. unfold b', update. simpl.
  do 4 (split; [reflexivity |]).
  destruct (Qltb_cases player_x (x_ b + kHalfTile)) as [[-> H] | [-> H]];
    split; split; intros H'; try reflexivity; try assumption;
    try discriminate; exfalso; lra.
Qed.

End BatProperties.

(** ** Runs on the grid map *)

Section GridRuns.

Import units Player.

#[local] Existing Instance GridMap.collaborators.

(** A run of C1's property: a player in the air at x = 101 moves right at
    0.1 per ms for 16 ms towards the wall tile of column 4, whose left
    edge is at 128.  The player stops with the right collision edge
    on 128. *)
Lemma updateX_moving_right_witness :
  let map := GridMap.getCollidingTiles [(0, 4)]%N in
  let p := GridMap.airborne 101 0 0.1 0 in
  let p1 := updateX_velocity 16%N p in
  let delta := deltaX 16%N p1 in
  0 < delta /\
  exists p2 p',
    updateX_right map delta p1 = Some p2 /\
    updateX_recheck_left map p2 = Some p' /\
    updateX 16%N map p = Some p' /\
    match firstWall (map (rightCollisionRect p1 delta)) with
    | Some w =>
        x_ p2 + Rectangle.right kCollisionX == tileToGame (Map.col w) /\
        velocity_x_ p2 = 0
    | None =>
        x_ p2 = x_ p + delta /\ velocity_x_ p2 = velocity_x_ p1
    end /\
    velocity_x_ p' = velocity_x_ p2 /\
    match firstWall (map (leftCollisionRect p2 0)) with
    | None => x_ p' = x_ p2
    | Some w' =>
        x_ p' = tileToGame (Map.col w') + Rectangle.right kCollisionX
    end.
Proof.
  intros map p p1 delta.
  split; [reflexivity |].
  apply (updateX_moving_right 16%N map p). reflexivity.
Defined.

(** C1 as stated fails.  The tiles of columns 2 and 3 are walls and the
    player, at x = 100, overlaps both.  The query to the right answers
    the wall of column 3 first, whose left edge is at 96; the re-check on
    the left edge then finds the wall of column 2 and sets x to 90: after
    the update the right collision edge is at 116, not at 96. *)
Lemma updateX_moving_right_counterexample :
  let map := GridMap.getCollidingTiles [(0, 3); (0, 2)]%N in
  let p := GridMap.airborne 100 0 0.1 0 in
  let p1 := updateX_velocity 16%N p in
  let delta := deltaX 16%N p1 in
  0 < delta /\
  firstWall (map (rightCollisionRect p1 delta)) = Some (GridMap.wall 0%N 3%N) /\
  exists p',
    updateX 16%N map p = Some p' /\
    x_ p' = 90 /\
    ~ x_ p' + Rectangle.right kCollisionX == tileToGame 3%N.
Proof.
  intros map p p1 delta.
  split; [reflexivity |].
  split; [vm_compute; reflexivity |].
  eexists. split; [vm_compute; reflexivity |].
  split; [reflexivity |].
  intros H. vm_compute in H. discriminate.
Qed.

(** A run of C2's property, with a positive intent on the ground. *)
Lemma updateX_velocity_clamp_witness :
  let p := GridMap.grounded 100 32 0.1 1%Z in
  acceleration_x_ p <> 0%Z /\
  ((acceleration_x_ p < 0)%Z ->
   - kMaxSpeedX <= velocity_x_ (updateX_velocity 16%N p)) /\
  ((0 < acceleration_x_ p)%Z ->
   velocity_x_ (updateX_velocity 16%N p) <= kMaxSpeedX) /\
  (Qabs (velocity_x_ p) <= kMaxSpeedX ->
   Qabs (velocity_x_ (updateX_velocity 16%N p)) <= kMaxSpeedX).
Proof.
  intros p.
  split; [discriminate |].
  apply (updateX_velocity_clamp 16%N p). discriminate.
Defined.

(** C2 as stated fails.  A velocity of 1 to the right with the intent to
    the left is lowered by the walking acceleration and clamped from
    below only: after 16 ms it is still far above [kMaxSpeedX]. *)
Lemma updateX_velocity_clamp_counterexample :
  let p := GridMap.grounded 100 32 1 (-1)%Z in
  acceleration_x_ p <> 0%Z /\
  velocity_x_ (updateX_velocity 16%N p) == 0.98671875008 /\
  ~ Qabs (velocity_x_ (updateX_velocity 16%N p)) <= kMaxSpeedX.
Proof.
  intros p.
  split; [discriminate |].
  split; [reflexivity |].
  intros H. vm_compute in H. apply H. reflexivity.
Qed.

(** C4 as stated fails, twice.  A player at rest on the floor tile of
    row 2, in a frame of 0 ms, has a delta of zero and takes the branch
    "delta <= 0": no wall is found above, and the re-check on the bottom
    edge finds the floor and sets the grounded flag.  A player that has
    sunk one unit into that floor and moves up for 16 ms finds no wall
    above either, and ends on the ground as well. *)
Lemma updateY_grounded_counterexample :
  let map := GridMap.getCollidingTiles [(2, 3)]%N in
  (let p := GridMap.grounded 100 32 0 0%Z in
   let p1 := updateY_velocity 0%N p in
   deltaY 0%N p1 <= 0 /\
   firstWall (map (topCollisionRect p1 (deltaY 0%N p1))) = None /\
   exists p', updateY 0%N map p = Some p' /\ on_ground_ p' = true) /\
  (let p := GridMap.airborne 100 33 0 (-0.05) in
   let p1 := updateY_velocity 16%N p in
   deltaY 16%N p1 < 0 /\
   firstWall (map (topCollisionRect p1 (deltaY 16%N p1))) = None /\
   exists p', updateY 16%N map p = Some p' /\ on_ground_ p' = true).
Proof.
  intros map. split; intros p p1.
  - split; [vm_compute; discriminate |].
    split; [vm_compute; reflexivity |].
    eexists. split; [vm_compute; reflexivity | reflexivity].
  - split; [reflexivity |].
    split; [vm_compute; reflexivity |].
    eexists. split; [vm_compute; reflexivity | reflexivity].
Qed.

(** A run of C5's property.  A player at rest in the air at x = 75 has a
    delta of zero and takes the branch "delta <= 0"; its right half
    overlaps the wall tile of column 3.  The re-check on the right edge
    puts the right collision edge on 96, the wall's left edge, and sets
    the grounded flag. *)
Lemma updateX_recheck_asymmetry_witness :
  let map := GridMap.getCollidingTiles [(0, 3)]%N in
  let p := GridMap.airborne 75 0 0 0 in
  on_ground_ p = false /\
  deltaX 16%N (updateX_velocity 16%N p) <= 0 /\
  exists p',
    updateX 16%N map p = Some p' /\
    x_ p' + Rectangle.right kCollisionX == tileToGame 3%N /\
    on_ground_ p' = true.
Proof.
  intros map p.
  split; [reflexivity |].
  assert (H : deltaX 16%N (updateX_velocity 16%N p) <= 0)
    by (vm_compute; discriminate).
  split; [exact H |].
  destruct (proj1 (updateX_recheck_asymmetry 16%N map p) H)
    as (p2 & p' & E1 & _ & E3 & W).
  exists p'. split; [exact E3 |].
  apply (W (GridMap.wall 0%N 3%N)).
  vm_compute in E1. injection E1 as <-. vm_compute. reflexivity.
Defined.




(** C8 as stated fails.  Right after a [startJump] on the ground the
    grounded flag is still set, and the classifier, which looks at that
    flag before the velocity, reports STANDING. *)
Lemma startJump_classifier_counterexample :
  let p := GridMap.grounded 100 32 0 0%Z in
  on_ground_ p = true /\
  velocity_y_ (startJump p) = - kJumpSpeed /\
  motion_type (fst (getSpriteState (startJump p))) = STANDING /\
  motion_type (fst (getSpriteState (startJump p))) <> JUMPING.
Proof.
  intros p. repeat split. discriminate.
Qed.

(** A run of C8's property: the jump from the floor of row 2, and the
    classifier after a vertical update of 16 ms. *)
Lemma startJump_stopJump_spec_witness :
  let map := GridMap.getCollidingTiles [(2, 3)]%N in
  let p := GridMap.grounded 100 32 0 0%Z in
  on_ground_ p = true /\
  exists p',
    updateY 16%N map (startJump p) = Some p' /\
    motion_type (fst (getSpriteState p')) = JUMPING.
Proof.
  intros map p.
  split; [reflexivity |].
  destruct (startJump_stopJump_spec p)
    as (_ & _ & _ & _ & _ & _ & _ & _ & _ & _ & J).
  destruct (J eq_refl 16%N map eq_refl) as (p' & U & M).
  exists p'. split; [exact U |].
  apply M; [vm_compute; reflexivity |].
  vm_compute in U. injection U as <-. reflexivity.
Defined.

(** C3 as stated fails on every landing.  A player that falls at 0.2 per
    ms onto the floor tile of row 2 has, by the formula,
    [min(0.2 + kGravity * 16, kMaxSpeedY) = 0.2125]; the wall found below
    zeroes the velocity, and after the update it is 0. *)
Lemma updateY_velocity_counterexample :
  let map := GridMap.getCollidingTiles [(2, 3)]%N in
  let p := GridMap.airborne 100 30 0 0.2 in
  gravityY p = kGravity /\
  std_min (velocity_y_ p + kGravity * ofMS 16%N) kMaxSpeedY == 0.2125 /\
  exists p',
    updateY 16%N map p = Some p' /\
    velocity_y_ p' = 0 /\
    ~ velocity_y_ p'
      == std_min (velocity_y_ p + kGravity * ofMS 16%N) kMaxSpeedY.
Proof.
  intros map p.
  split; [reflexivity |]. split; [reflexivity |].
  eexists. split; [vm_compute; reflexivity |].
  split; [reflexivity |].
  intros H. vm_compute in H. discriminate.
Qed.

(** A run of C3's property: the same landing, and the velocity after
    it. *)
Lemma updateY_velocity_after_update_witness :
  let map := GridMap.getCollidingTiles [(2, 3)]%N in
  let p := GridMap.airborne 100 30 0 0.2 in
  exists p',
    updateY 16%N map p = Some p' /\
    velocity_y_ p' = 0 /\
    velocity_y_ p' <= kMaxSpeedY.
Proof.
  intros map p.
  destruct (updateY_velocity_after_update 16%N map p)
    as (_ & _ & _ & _ & p' & U & Down & _ & B & _).
  exists p'. split; [exact U |].
  split; [| exact B].
  assert (D : 0 < 0.2125 * ofMS 16%N) by reflexivity.
  exact (Down D).
Defined.

(** The ascent is not clamped: a velocity of 10 upwards, well beyond
    [kMaxSpeedY] in size, is only lowered by gravity. *)
Example updateY_velocity_ascent :
  let p := GridMap.airborne 100 0 0 (-10) in
  velocity_y_ (updateY_velocity 16%N p) == -9.9875 /\
  velocity_y_ (updateY_velocity 16%N p) < - kMaxSpeedY.
Proof. split; reflexivity. Qed.

(** The fall is clamped, and the jump gravity needs the jump to be held. *)
Example updateY_velocity_fall :
  velocity_y_ (updateY_velocity 16%N (GridMap.airborne 100 0 0 0.295))
  = kMaxSpeedY /\
  gravityY (set_jump_active true (GridMap.airborne 100 0 0 (-0.1)))
  = kJumpGravity /\
  gravityY (GridMap.airborne 100 0 0 (-0.1)) = kGravity /\
  gravityY (set_jump_active true (GridMap.airborne 100 0 0 0)) = kGravity.
Proof. repeat split. Qed.

(** The classifier on a player that walks, and on one that falls. *)
Example getSpriteState_runs :
  motion_type (fst (getSpriteState (GridMap.grounded 100 32 0 1%Z))) = WALKING /\
  motion_type (fst (getSpriteState (GridMap.airborne 100 0 0 0))) = FALLING /\
  motion_type (fst (getSpriteState (GridMap.airborne 100 0 0 (-0.1)))) = JUMPING.
Proof. repeat split. Qed.

End GridRuns.

(** * Further properties *)

(** ** The wall scan, as its callers see it *)

(** X1.  [getWallCollisionInfo] reports a collision exactly when the
    provider's answer holds a wall tile; the row and the column it
    reports are those of the first wall tile of the answer, before which
    there are only tiles that are not walls; without a collision it
    reports row 0 and column 0. *)
Theorem getWallCollisionInfo_reports_first_wall :
  forall (map : Map.Provider) (r : Rectangle.t),
    let info := getWallCollisionInfo map r in
    (collided info = true <->
     exists c, In c (map r) /\ Map.tile_type c = Map.WALL_TILE) /\
    (collided info = true ->
     exists before w after,
       map r = before ++ w :: after /\
       Map.tile_type w = Map.WALL_TILE /\
       (forall c, In c before -> Map.tile_type c = Map.AIR_TILE) /\
       row info = Map.row w /\ col info = Map.col w) /\
    (collided info = false -> row info = 0%N /\ col info = 0%N).
Proof.
  intros map r info. unfold info. rewrite getWallCollisionInfo_firstWall.
  destruct (firstWall (map r)) as [w |] eqn:E; simpl.
  - destruct (firstWall_first _ _ E) as (before & after & Hm & Hw & Hb).
    split; [| split].
    + split; [| reflexivity]. intros _. exists w. split; [| assumption].
      rewrite Hm. apply in_or_app. right. now left.
    + intros _. exists before, w, after. auto.
    + discriminate.
  - split; [| split].
    + split; [discriminate |]. intros (c & Hc & Hw).
      rewrite (proj1 (firstWall_none _) E c Hc) in Hw. discriminate.
    + discriminate.
    + auto.
Qed.

(** ** The positions that the updates leave *)

Section PositionProperties.

Import units Player.

Context {C : Collaborators}.

Implicit Types (p q : Player.t C) (map : Map.Provider) (t : MS).

Lemma updateX_velocity_y t p : y_ (updateX_velocity t p) = y_ p.
Proof. now rewrite updateX_velocity_frame. Qed.

(** X2.  In a horizontal update whose delta is not positive, the
    reaction to the query on the left collision rectangle extended by
    delta sets [x] to the first wall tile's x plus [kCollisionX.right()]
    and zeroes [velocity_x]; without a wall it adds delta to [x].  The
    re-check on the right edge then leaves the player alone when it finds
    no wall, and otherwise puts the right collision edge on the left edge
    of the wall it finds and sets the grounded flag.  The velocity stands
    as the reaction left it. *)
Theorem updateX_moving_left :
  forall t map p,
    let p1 := updateX_velocity t p in
    let delta := deltaX t p1 in
    delta <= 0 ->
    exists p2 p',
      updateX_left map delta p1 = Some p2 /\
      updateX_recheck_right map p2 = Some p' /\
      updateX t map p = Some p' /\
      match firstWall (map (leftCollisionRect p1 delta)) with
      | Some w =>
          x_ p2 = tileToGame (Map.col w) + Rectangle.right kCollisionX /\
          velocity_x_ p2 = 0
      | None => x_ p2 = x_ p + delta /\ velocity_x_ p2 = velocity_x_ p1
      end /\
      on_ground_ p2 = on_ground_ p /\
      velocity_x_ p' = velocity_x_ p2 /\
      match firstWall (map (rightCollisionRect p2 0)) with
      | None => p' = p2
      | Some w' =>
          x_ p' + Rectangle.right kCollisionX == tileToGame (Map.col w') /\
          on_ground_ p' = true
      end.
Proof.
  intros t map p p1 delta H.
  destruct (updateX_left_branch t map p H) as (p2 & p' & E1 & E2 & E3).
  fold p1 in E1. fold delta in E1.
  exists p2, p'. repeat (split; [assumption |]).
  rewrite updateX_left_eq in E1 by assumption.
  rewrite updateX_recheck_right_eq in E2.
  injection E1 as E1. injection E2 as E2.
  split; [| split; [| split]].
  - subst p2. destruct (firstWall (map (leftCollisionRect p1 delta))); simpl.
    + split; reflexivity.
    + split; [| reflexivity]. unfold p1. now rewrite updateX_velocity_x.
  - subst p2. unfold p1.
    destruct (firstWall (map (leftCollisionRect _ delta))); simpl;
      apply updateX_velocity_on_ground.
  - subst p'. now destruct (firstWall (map (rightCollisionRect p2 0))).
  - subst p'. destruct (firstWall (map (rightCollisionRect p2 0))); simpl.
    + split; [ring | reflexivity].
    + reflexivity.
Qed.

Lemma updateY_velocity_y t p : y_ (updateY_velocity t p) = y_ p.
Proof. reflexivity. Qed.

(** X3.  In a vertical update whose delta is strictly positive, the
    reaction to the query on the bottom collision rectangle extended by
    delta puts the bottom collision edge on the top edge of the first wall
    tile of the provider's order; without a wall it adds delta to [y].
    The re-check on the top edge then keeps that [y] when it finds no
    wall, and otherwise sets [y] to the found tile's y plus
    [kCollisionY.height()]; it writes nothing but [y]. *)
Theorem updateY_moving_down :
  forall t map p,
    let p1 := updateY_velocity t p in
    let delta := deltaY t p1 in
    0 < delta ->
    exists p2 p',
      updateY_down map delta p1 = Some p2 /\
      updateY_recheck_top map p2 = Some p' /\
      updateY t map p = Some p' /\
      match firstWall (map (bottomCollisionRect p1 delta)) with
      | Some w =>
          y_ p2 + Rectangle.bottom kCollisionY == tileToGame (Map.row w)
      | None => y_ p2 = y_ p + delta
      end /\
      p' = set_y (y_ p') p2 /\
      match firstWall (map (topCollisionRect p2 0)) with
      | None => y_ p' = y_ p2
      | Some w' =>
          y_ p' = tileToGame (Map.row w') + Rectangle.height kCollisionY
      end.
Proof.
  intros t map p p1 delta H.
  destruct (updateY_down_branch t map p H) as (p2 & p' & E1 & E2 & E3).
  fold p1 in E1. fold delta in E1.
  exists p2, p'. repeat (split; [assumption |]).
  rewrite updateY_down_eq in E1 by now apply Qlt_le_weak.
  rewrite updateY_recheck_top_eq in E2.
  injection E1 as E1. injection E2 as E2.
  split; [| split].
  - subst p2. destruct (firstWall (map (bottomCollisionRect p1 delta))); simpl.
    + ring.
    + reflexivity.
  - subst p'. destruct (firstWall (map (topCollisionRect p2 0)));
      destruct p2; reflexivity.
  - subst p'. now destruct (firstWall (map (topCollisionRect p2 0))).
Qed.

(** X4.  In a vertical update whose delta is not positive, the reaction
    to the query on the top collision rectangle extended by delta sets
    [y] to the first wall tile's y plus [kCollisionY.height()]; without a
    wall it adds delta to [y].  The re-check on the bottom edge then
    leaves the player alone when it finds no wall, and otherwise puts the
    bottom collision edge on the top edge of the wall it finds. *)
Theorem updateY_moving_up :
  forall t map p,
    let p1 := updateY_velocity t p in
    let delta := deltaY t p1 in
    delta <= 0 ->
    exists p2 p',
      updateY_up map delta p1 = Some p2 /\
      updateY_recheck_bottom map p2 = Some p' /\
      updateY t map p = Some p' /\
      match firstWall (map (topCollisionRect p1 delta)) with
      | Some w =>
          y_ p2 = tileToGame (Map.row w) + Rectangle.height kCollisionY
      | None => y_ p2 = y_ p + delta
      end /\
      match firstWall (map (bottomCollisionRect p2 0)) with
      | None => p' = p2
      | Some w' =>
          y_ p' + Rectangle.bottom kCollisionY == tileToGame (Map.row w')
      end.
Proof.
  intros t map p p1 delta H.
  destruct (updateY_up_branch t map p H) as (p2 & p' & E1 & E2 & E3).
  fold p1 in E1. fold delta in E1.
  exists p2, p'. repeat (split; [assumption |]).
  rewrite updateY_up_eq in E1 by assumption.
  rewrite updateY_recheck_bottom_eq in E2.
  injection E1 as E1. injection E2 as E2.
  split.
  - subst p2. now destruct (firstWall (map (topCollisionRect p1 delta))).
  - subst p'. destruct (firstWall (map (bottomCollisionRect p2 0))); simpl.
    + ring.
    + reflexivity.
Qed.

End PositionProperties.

(** ** What the updates write, and what they never do *)

Section FrameProperties.

Import units Player.

Context {C : Collaborators}.

Implicit Types (p q : Player.t C) (map : Map.Provider) (t : MS).

(** X5.  [Player::update] never fails an assertion of the collision
    rectangles, whatever the elapsed time, the map and the player.  It
    writes the position, the velocity and the grounded flag, and lets the
    health bar and the damage text advance; the acceleration intent, both
    facings, the jump-held flag, the interacting flag and the
    invincibility timer are as before. *)
Theorem update_never_fails :
  forall t map p,
    exists p',
      update t map p = Some p' /\
      acceleration_x_ p' = acceleration_x_ p /\
      horizontal_facing_ p' = horizontal_facing_ p /\
      vertical_facing_ p' = vertical_facing_ p /\
      jump_active_ p' = jump_active_ p /\
      interacting_ p' = interacting_ p /\
      invincible_timer_ p' = invincible_timer_ p /\
      health_ p' = Health_update t (health_ p) /\
      damage_text_ p' = DamageText_update t (damage_text_ p).
Proof.
  intros t map p. unfold update.
  set (p0 := set_damage_text _ (set_health _ p)).
  destruct (updateX_total t map p0) as (p1 & E1).
  destruct (updateY_total t map p1) as (p2 & E2).
  exists p2. rewrite E1. simpl. split; [assumption |].
  apply updateX_sameRest in E1. apply updateY_sameRest in E2.
  destruct E1 as ((A1 & B1 & C1 & D1 & I1 & H1 & T1 & M1) & _).
  destruct E2 as ((A2 & B2 & C2 & D2 & I2 & H2 & T2 & M2) & _).
  rewrite A2, A1, B2, B1, C2, C1, D2, D1, I2, I1, H2, H1, T2, T1, M2, M1.
  repeat split.
Qed.

(** X6.  The horizontal update writes neither [y] nor [velocity_y], and
    it never clears the grounded flag: a player on the ground before it
    is on the ground after it. *)
Theorem updateX_keeps_vertical :
  forall t map p,
    exists p',
      updateX t map p = Some p' /\
      y_ p' = y_ p /\
      velocity_y_ p' = velocity_y_ p /\
      (on_ground_ p = true -> on_ground_ p' = true).
Proof.
  intros t map p.
  destruct (updateX_total t map p) as (p' & E). exists p'.
  split; [assumption |].
  destruct (updateX_sameRest t map p p' E) as (_ & Y & V).
  split; [assumption |]. split; [assumption |].
  intros G.
  set (p1 := updateX_velocity t p).
  assert (G1 : on_ground_ p1 = true)
    by (unfold p1; now rewrite updateX_velocity_on_ground).
  destruct (Qltb_cases 0 (deltaX t p1)) as [[_ H] | [_ H]].
  - destruct (updateX_right_branch t map p H) as (p2 & q & E1 & E2 & E3).
    fold p1 in E1. rewrite E in E3. injection E3 as <-.
    rewrite updateX_right_eq in E1 by now apply Qlt_le_weak.
    rewrite updateX_recheck_left_eq in E2.
    injection E1 as E1. injection E2 as E2. subst p' p2.
    destruct (firstWall (map (rightCollisionRect p1 _)));
      match goal with
      | |- context [firstWall (map (leftCollisionRect ?q 0))] =>
          destruct (firstWall (map (leftCollisionRect q 0)))
      end; exact G1.
  - destruct (updateX_left_branch t map p H) as (p2 & q & E1 & E2 & E3).
    fold p1 in E1. rewrite E in E3. injection E3 as <-.
    rewrite updateX_left_eq in E1 by assumption.
    rewrite updateX_recheck_right_eq in E2.
    injection E1 as E1. injection E2 as E2. subst p' p2.
    destruct (firstWall (map (leftCollisionRect p1 _)));
      match goal with
      | |- context [firstWall (map (rightCollisionRect ?q 0))] =>
          destruct (firstWall (map (rightCollisionRect q 0)))
      end; simpl; solve [reflexivity | exact G1].
Qed.

Lemma updateY_step_ignores_on_ground map delta p b :
  updateY_down map delta (set_on_ground b p) = updateY_down map delta p /\
  updateY_up map delta (set_on_ground b p) = updateY_up map delta p.
Proof.
  unfold updateY_down, updateY_up, bottomCollision, topCollision.
  split.
  - destruct (Qle_bool 0 delta); [| reflexivity]. simpl.
    change (bottomCollisionRect (set_on_ground b p) delta)
      with (bottomCollisionRect p delta).
    now destruct (collided _).
  - destruct (Qle_bool delta 0); [| reflexivity]. simpl.
    change (topCollisionRect (set_on_ground b p) delta)
      with (topCollisionRect p delta).
    now destruct (collided _).
Qed.

(** X7.  The vertical update writes neither [x] nor [velocity_x], and it
    does not read the grounded flag: it decides the flag anew, and gives
    the same player whatever the flag was before. *)
Theorem updateY_decides_grounded_anew :
  forall t map p,
    (forall b, updateY t map (set_on_ground b p) = updateY t map p) /\
    exists p',
      updateY t map p = Some p' /\
      x_ p' = x_ p /\
      velocity_x_ p' = velocity_x_ p.
Proof.
  intros t map p. split.
  - intros b. unfold updateY.
    change (updateY_velocity t (set_on_ground b p))
      with (set_on_ground b (updateY_velocity t p)).
    set (p1 := updateY_velocity t p).
    change (deltaY t (set_on_ground b p1)) with (deltaY t p1).
    destruct (updateY_step_ignores_on_ground map (deltaY t p1) p1 b)
      as [-> ->].
    reflexivity.
  - destruct (updateY_total t map p) as (p' & E). exists p'.
    split; [assumption |].
    destruct (updateY_sameRest t map p p' E) as (_ & X & V). auto.
Qed.

(** ** Friction and gravity *)

Lemma std_min_mono (a a' b : Q) : a <= a' -> std_min a b <= std_min a' b.
Proof.
  intros H. rewrite !std_min_Qmin. apply Q.min_le_compat_r. exact H.
Qed.

(** The velocity after the velocity step, on the ground without intent. *)
Lemma updateX_velocity_friction_value t p :
  acceleration_x_ p = 0%Z ->
  on_ground_ p = true ->
  velocity_x_ (updateX_velocity t p) ==
  if Qltb 0 (velocity_x_ p)
  then Qmax 0 (velocity_x_ p - kFriction * ofMS t)
  else Qmin 0 (velocity_x_ p + kFriction * ofMS t).
Proof.
  intros H G.
  destruct (accelerationX_sign t p) as (_ & _ & Z0). specialize (Z0 H).
  rewrite (updateX_velocity_friction t p H G). cbv zeta.
  set (v := velocity_x_ p) in *.
  destruct (Qltb_cases 0 (v + accelerationX p * ofMS t)) as [[-> L] | [-> L]];
    destruct (Qltb_cases 0 v) as [[-> L'] | [-> L']]; try (exfalso; lra).
  - rewrite std_max_Qmax. now rewrite Z0, Qplus_0_r.
  - rewrite std_min_Qmin. now rewrite Z0, Qplus_0_r.
Qed.

(** X8.  Friction brings the player to a halt: on the ground without
    intent, a velocity whose size is at most [kFriction * elapsed] becomes
    exactly zero, and in every case the size of the velocity does not
    grow. *)
Theorem friction_stops :
  forall t p,
    acceleration_x_ p = 0%Z ->
    on_ground_ p = true ->
    Qabs (velocity_x_ (updateX_velocity t p)) <= Qabs (velocity_x_ p) /\
    (Qabs (velocity_x_ p) <= kFriction * ofMS t ->
     velocity_x_ (updateX_velocity t p) == 0).
Proof.
  intros t p H G.
  pose proof (updateX_velocity_friction_value t p H G) as E.
  pose proof (ofMS_nonneg t) as Ht.
  assert (F : 0 <= kFriction * ofMS t).
  { apply Qmult_le_0_compat; [vm_compute; discriminate | assumption]. }
  set (v := velocity_x_ p) in *. set (f := kFriction * ofMS t) in *.
  destruct (Qltb_cases 0 v) as [[L1 L] | [L1 L]]; rewrite L1 in E; rewrite E.
  - split.
    + rewrite (Qabs_pos v) by lra.
      rewrite Qabs_pos by apply Q.le_max_l.
      apply Q.max_lub; lra.
    + intros B. rewrite (Qabs_pos v) in B by lra.
      apply Q.max_l. lra.
  - split.
    + rewrite (Qabs_neg v) by assumption.
      rewrite Qabs_neg by apply Q.le_min_l.
      assert (M : v <= Qmin 0 (v + f)) by (apply Q.min_glb; lra).
      lra.
    + intros B. rewrite (Qabs_neg v) in B by assumption.
      apply Q.min_l. lra.
Qed.

(** X9.  Holding the jump never makes the player fall faster: after the
    velocity step, the vertical velocity with the jump held is at most the
    one without, and the two are equal when the player was not rising. *)
Theorem jump_held_rises_longer :
  forall t p,
    velocity_y_ (updateY_velocity t (set_jump_active true p))
    <= velocity_y_ (updateY_velocity t (set_jump_active false p)) /\
    (0 <= velocity_y_ p ->
     velocity_y_ (updateY_velocity t (set_jump_active true p))
     = velocity_y_ (updateY_velocity t (set_jump_active false p))).
Proof.
  intros t p. unfold updateY_velocity, gravityY. simpl.
  pose proof (ofMS_nonneg t) as Ht.
  destruct (Qltb_cases (velocity_y_ p) 0) as [[-> L] | [-> L]].
  - split; [| intros L'; exfalso; lra].
    apply std_min_mono.
    assert (K : kJumpGravity * ofMS t <= kGravity * ofMS t).
    { apply Qmult_le_compat_r; [vm_compute; discriminate | assumption]. }
    lra.
  - split; [apply Qle_refl | reflexivity].
Qed.

End FrameProperties.

(** ** The rectangles *)

Section RectangleProperties.

Import units Player.

Context {C : Collaborators}.

Implicit Types (p q : Player.t C) (map : Map.Provider) (t : MS).

(** X10.  The four collision rectangles of a player at rest (delta 0) lie
    in its damage rectangle.  The left and the right one reach its left
    and right edge and meet in between; the top and the bottom one reach
    its top and bottom edge and meet in between. *)
Theorem collision_rectangles_in_damageRectangle :
  forall p,
    let d := damageRectangle p in
    let l := leftCollisionRect p 0 in
    let r := rightCollisionRect p 0 in
    let u := topCollisionRect p 0 in
    let b := bottomCollisionRect p 0 in
    (Rectangle.left l == Rectangle.left d /\
     Rectangle.right l == Rectangle.left r /\
     Rectangle.right r == Rectangle.right d) /\
    (Rectangle.top u == Rectangle.top d /\
     Rectangle.bottom u == Rectangle.top b /\
     Rectangle.bottom b == Rectangle.bottom d) /\
    (Rectangle.top d <= Rectangle.top l /\
     Rectangle.bottom l <= Rectangle.bottom d /\
     Rectangle.top l = Rectangle.top r /\
     Rectangle.bottom l = Rectangle.bottom r) /\
    (Rectangle.left d <= Rectangle.left u /\
     Rectangle.right u <= Rectangle.right d /\
     Rectangle.left u = Rectangle.left b /\
     Rectangle.right u = Rectangle.right b).
Proof.
  intros p. cbv zeta.
  unfold damageRectangle, leftCollisionRect, rightCollisionRect,
    topCollisionRect, bottomCollisionRect, Rectangle.left, Rectangle.right,
    Rectangle.top, Rectangle.bottom, kCollisionX, kCollisionY.
  simpl. repeat split; try reflexivity; try lra; field.
Qed.

(** X11.  A collision rectangle asked for with a delta moves its outer
    edge by delta and keeps its inner edge.  Each of the four functions
    fails its assertion on a delta of the wrong sign and on no other. *)
Theorem collision_rectangles_extend_by_delta :
  forall p delta,
    (Rectangle.left (leftCollisionRect p delta)
     == Rectangle.left (leftCollisionRect p 0) + delta /\
     Rectangle.right (leftCollisionRect p delta)
     == Rectangle.right (leftCollisionRect p 0)) /\
    (Rectangle.left (rightCollisionRect p delta)
     == Rectangle.left (rightCollisionRect p 0) /\
     Rectangle.right (rightCollisionRect p delta)
     == Rectangle.right (rightCollisionRect p 0) + delta) /\
    (Rectangle.top (topCollisionRect p delta)
     == Rectangle.top (topCollisionRect p 0) + delta /\
     Rectangle.bottom (topCollisionRect p delta)
     == Rectangle.bottom (topCollisionRect p 0)) /\
    (Rectangle.top (bottomCollisionRect p delta)
     == Rectangle.top (bottomCollisionRect p 0) /\
     Rectangle.bottom (bottomCollisionRect p delta)
     == Rectangle.bottom (bottomCollisionRect p 0) + delta) /\
    (leftCollision p delta = None <-> 0 < delta) /\
    (topCollision p delta = None <-> 0 < delta) /\
    (rightCollision p delta = None <-> delta < 0) /\
    (bottomCollision p delta = None <-> delta < 0).
Proof.
  intros p delta.
  assert (A : forall a b (r : Rectangle.t),
             (if Qle_bool a b then Some r else None) = None <-> b < a).
  { intros a b r. destruct (Qle_bool a b) eqn:E.
    - apply Qle_bool_iff in E. split; [discriminate |].
      intros H. exfalso. lra.
    - split; [intros _ | reflexivity].
      apply Qnot_le_lt. intros H. apply Qle_bool_iff in H. congruence. }
  do 4 (split;
        [ split;
          unfold leftCollisionRect, rightCollisionRect, topCollisionRect,
            bottomCollisionRect, Rectangle.left, Rectangle.right,
            Rectangle.top, Rectangle.bottom, kCollisionX, kCollisionY;
          simpl; field
        | ]).
  unfold leftCollision, topCollision, rightCollision, bottomCollision.
  split; [apply A |]. split; [apply A |]. split; apply A.
Qed.

(** X12.  On tiles that are 32 units apart, the snap to a wall on the
    left puts the left collision edge on the wall tile's right edge (the
    left edge of the next column), and the snap to a wall above puts the
    top collision edge on the wall tile's bottom edge (the top edge of the
    next row). *)
Theorem snaps_touch_the_far_edge :
  (forall c, tileToGame (c + 1)%N == tileToGame c + 32) ->
  forall map delta p w,
    delta <= 0 ->
    (firstWall (map (leftCollisionRect p delta)) = Some w ->
     exists p2,
       updateX_left map delta p = Some p2 /\
       Rectangle.left (leftCollisionRect p2 0)
       == tileToGame (Map.col w + 1)%N) /\
    (firstWall (map (topCollisionRect p delta)) = Some w ->
     exists p2,
       updateY_up map delta p = Some p2 /\
       Rectangle.top (topCollisionRect p2 0)
       == tileToGame (Map.row w + 1)%N).
Proof.
  intros T map delta p w H. split; intros W.
  - rewrite updateX_left_eq, W by assumption. eexists. split; [reflexivity |].
    rewrite T.
    unfold leftCollisionRect, Rectangle.left, Rectangle.right, kCollisionX.
    simpl. ring.
  - rewrite updateY_up_eq, W by assumption. eexists. split; [reflexivity |].
    rewrite T.
    unfold topCollisionRect, Rectangle.top, Rectangle.height, kCollisionY.
    simpl. ring.
Qed.

End RectangleProperties.

(** ** The speeds stay within their limits *)

Section SpeedProperties.

Import units Player.

Context {C : Collaborators}.

Implicit Types (p q : Player.t C) (map : Map.Provider) (t : MS).

Lemma updateX_velocity_bounded t p :
  Qabs (velocity_x_ p) <= kMaxSpeedX ->
  Qabs (velocity_x_ (updateX_velocity t p)) <= kMaxSpeedX.
Proof.
  intros B.
  destruct (accelerationX_sign t p) as (Sneg & Spos & Szero).
  assert (K : - kMaxSpeedX <= kMaxSpeedX) by (vm_compute; discriminate).
  destruct (Z.lt_total (acceleration_x_ p) 0) as [H | [H | H]].
  - apply Qabs_Qle_condition in B. destruct B as [B1 B2].
    apply Qabs_Qle_condition.
    rewrite (updateX_velocity_negative t p H).
    split; [apply std_max_ge_r |].
    specialize (Sneg H). rewrite std_max_Qmax.
    apply Q.max_lub; [lra | assumption].
  - specialize (Szero H).
    destruct (on_ground_ p) eqn:G.
    + rewrite (updateX_velocity_friction_value t p H G).
      pose proof (ofMS_nonneg t) as Ht.
      assert (F : 0 <= kFriction * ofMS t).
      { apply Qmult_le_0_compat; [vm_compute; discriminate | assumption]. }
      apply Qabs_Qle_condition in B. destruct B as [B1 B2].
      apply Qabs_Qle_condition.
      destruct (Qltb_cases 0 (velocity_x_ p)) as [[-> L] | [-> L]].
      * split; [eapply Qle_trans; [| apply Q.le_max_l]; lra |].
        apply Q.max_lub; lra.
      * split; [apply Q.min_glb; lra |].
        eapply Qle_trans; [apply Q.le_min_l | lra].
    + assert (E : velocity_x_ (updateX_velocity t p)
                  = velocity_x_ p + accelerationX p * ofMS t).
      { unfold updateX_velocity, on_ground. simpl. rewrite H, G. reflexivity. }
      rewrite E, Szero, Qplus_0_r. exact B.
  - apply Qabs_Qle_condition in B. destruct B as [B1 B2].
    apply Qabs_Qle_condition.
    rewrite (updateX_velocity_positive t p H).
    split; [| apply std_min_le_r].
    specialize (Spos H). rewrite std_min_Qmin.
    apply Q.min_glb; [lra | assumption].
Qed.

(** The horizontal update keeps the velocity of its velocity step, or
    zeroes it. *)
Lemma updateX_velocity_kept_or_zero t map p p' :
  updateX t map p = Some p' ->
  velocity_x_ p' = velocity_x_ (updateX_velocity t p) \/ velocity_x_ p' = 0.
Proof.
  intros E. set (p1 := updateX_velocity t p).
  destruct (Qltb_cases 0 (deltaX t p1)) as [[_ H] | [_ H]].
  - destruct (updateX_right_branch t map p H) as (p2 & q & E1 & E2 & E3).
    fold p1 in E1. rewrite E in E3. injection E3 as <-.
    rewrite updateX_right_eq in E1 by now apply Qlt_le_weak.
    rewrite updateX_recheck_left_eq in E2.
    injection E1 as E1. injection E2 as E2. subst p' p2.
    destruct (firstWall (map (rightCollisionRect p1 _)));
      match goal with
      | |- context [firstWall (map (leftCollisionRect ?q 0))] =>
          destruct (firstWall (map (leftCollisionRect q 0)))
      end; simpl; auto.
  - destruct (updateX_left_branch t map p H) as (p2 & q & E1 & E2 & E3).
    fold p1 in E1. rewrite E in E3. injection E3 as <-.
    rewrite updateX_left_eq in E1 by assumption.
    rewrite updateX_recheck_right_eq in E2.
    injection E1 as E1. injection E2 as E2. subst p' p2.
    destruct (firstWall (map (leftCollisionRect p1 _)));
      match goal with
      | |- context [firstWall (map (rightCollisionRect ?q 0))] =>
          destruct (firstWall (map (rightCollisionRect q 0)))
      end; simpl; auto.
Qed.

Lemma kMaxSpeedX_nonneg : Qabs 0 <= kMaxSpeedX.
Proof. vm_compute. discriminate. Qed.

Lemma updateY_velocity_bounded t p :
  - kJumpSpeed <= velocity_y_ p ->
  - kJumpSpeed <= velocity_y_ (updateY_velocity t p) /\
  velocity_y_ (updateY_velocity t p) <= kMaxSpeedY.
Proof.
  intros B. unfold updateY_velocity. simpl.
  split; [| apply std_min_le_r].
  rewrite std_min_Qmin. apply Q.min_glb; [| vm_compute; discriminate].
  pose proof (ofMS_nonneg t) as Ht.
  assert (G : 0 <= gravityY p * ofMS t).
  { apply Qmult_le_0_compat; [| assumption].
    unfold gravityY. destruct (_ && _); vm_compute; discriminate. }
  lra.
Qed.

Lemma updateY_velocity_kept_or_zero t map p p' :
  updateY t map p = Some p' ->
  velocity_y_ p' = velocity_y_ (updateY_velocity t p) \/ velocity_y_ p' = 0.
Proof.
  intros E. destruct (updateY_cases t map p) as (q & U & D & A).
  rewrite E in U. injection U as <-.
  destruct (Qltb_cases 0 (deltaY t (updateY_velocity t p))) as [[_ H] | [_ H]].
  - specialize (D H). destruct (firstWall _) in D; destruct D as [_ D]; auto.
  - destruct (A H) as (p2 & _ & _ & V & _).
    destruct (firstWall (map (topCollisionRect _ _))) in V; auto.
Qed.

Lemma update_speedsBounded t map p :
  exists p',
    update t map p = Some p' /\
    (speedsBounded p -> speedsBounded p') /\
    sameRest (set_damage_text (DamageText_update t (damage_text_ p))
                (set_health (Health_update t (health_ p)) p)) p'.
Proof.
  unfold update.
  set (p0 := set_damage_text _ (set_health _ p)).
  destruct (updateX_total t map p0) as (p1 & E1).
  destruct (updateY_total t map p1) as (p2 & E2).
  exists p2. rewrite E1. simpl. split; [assumption |].
  pose proof (updateX_velocity_kept_or_zero t map p0 p1 E1) as VX.
  pose proof (updateY_velocity_kept_or_zero t map p1 p2 E2) as VY.
  destruct (updateX_sameRest t map p0 p1 E1) as (R1 & _ & VY1).
  destruct (updateY_sameRest t map p1 p2 E2) as (R2 & _ & VX2).
  split.
  - intros (BX & BY1 & BY2).
    unfold speedsBounded. rewrite VX2. split.
    + destruct VX as [-> | ->]; [| apply kMaxSpeedX_nonneg].
      apply updateX_velocity_bounded. exact BX.
    + assert (B1 : - kJumpSpeed <= velocity_y_ p1) by (rewrite VY1; exact BY1).
      destruct (updateY_velocity_bounded t p1 B1) as [L U].
      destruct VY as [-> | ->]; [split; assumption |].
      split; vm_compute; discriminate.
  - unfold sameRest in *.
    destruct R1 as (A1 & B1 & C1 & D1 & I1 & H1 & T1 & M1).
    destruct R2 as (A2 & B2 & C2 & D2 & I2 & H2 & T2 & M2).
    rewrite A2, A1, B2, B1, C2, C1, D2, D1, I2, I1, H2, H1, T2, T1, M2, M1.
    repeat split.
Qed.

Lemma takeDamage_speedsBounded damage p :
  speedsBounded p -> speedsBounded (takeDamage damage p).
Proof.
  intros (BX & BY1 & BY2). unfold takeDamage.
  destruct (Timer.active _); [repeat split; assumption |].
  unfold speedsBounded. simpl. split; [assumption |].
  split.
  - rewrite std_min_Qmin. apply Q.min_glb; [assumption |].
    vm_compute. discriminate.
  - eapply Qle_trans; [apply std_min_le_l | assumption].
Qed.

Lemma takeDamage_intentCoherent damage p :
  intentCoherent p -> intentCoherent (takeDamage damage p).
Proof.
  unfold takeDamage. destruct (Timer.active _); [trivial |].
  unfold intentCoherent. simpl. trivial.
Qed.


End SpeedProperties.

(** ** The event loop *)

Section GameProperties.

Import units Player.

Context {PC : Collaborators} {BC : FirstCaveBat.Collaborators}.

Variable center_x : Player.t PC -> Game.
Variable batCollidesWith : FirstCaveBat.t BC -> Rectangle.t -> bool.

Implicit Types (p q : Player.t PC) (input : Game.Input)
  (g : Game.t PC BC).

(** X13.  After the input is handled the acceleration intent is what is
    held to the right minus what is held to the left, so that opposite
    keys cancel; a pressed jump key sets the jump-held flag even when its
    release is reported too; and the position, the horizontal velocity,
    the grounded flag, the health and the timer are untouched, while the
    vertical velocity changes only to [- kJumpSpeed], on a jump from the
    ground. *)
Theorem handleInput_intent :
  forall input p,
    let p' := Game.handleInput input p in
    acceleration_x_ p'
    = (Z.b2z (Game.right_held input) - Z.b2z (Game.left_held input))%Z /\
    (Game.z_pressed input = true -> jump_active_ p' = true) /\
    (Game.z_pressed input = false -> Game.z_released input = true ->
     jump_active_ p' = false) /\
    x_ p' = x_ p /\ y_ p' = y_ p /\ velocity_x_ p' = velocity_x_ p /\
    on_ground_ p' = on_ground_ p /\
    health_ p' = health_ p /\ invincible_timer_ p' = invincible_timer_ p /\
    (velocity_y_ p' = velocity_y_ p \/
     Game.z_pressed input = true /\ on_ground_ p = true /\
     velocity_y_ p' = - kJumpSpeed).
Proof.
  intros input p.
  destruct input as [qt l r u d zp zr]. destruct p as
    [x y vx vy a hf vf og ja ia h dt tm].
  unfold Game.handleInput, stopMoving, startMovingLeft, startMovingRight,
    lookHorizontal, lookUp, lookDown, startJump, stopJump, on_ground.
  simpl.
  destruct l, r, u, d, zp, zr, vf, og; simpl;
    repeat split; try reflexivity; try discriminate; auto.
Qed.

Lemma handleInput_intentCoherent input p :
  intentCoherent (Game.handleInput input p).
Proof.
  destruct input as [qt l r u d zp zr]. destruct p as
    [x y vx vy a hf vf og ja ia h dt tm].
  unfold Game.handleInput, stopMoving, startMovingLeft, startMovingRight,
    lookHorizontal, lookUp, lookDown, startJump, stopJump, on_ground,
    intentCoherent.
  simpl.
  destruct l, r, u, d, zp, zr, vf, og; simpl;
    repeat split; try (intros; lia); try discriminate; auto.
Qed.

Lemma handleInput_velocities input p :
  velocity_x_ (Game.handleInput input p) = velocity_x_ p /\
  (velocity_y_ (Game.handleInput input p) = velocity_y_ p \/
   velocity_y_ (Game.handleInput input p) = - kJumpSpeed).
Proof.
  destruct input as [qt l r u d zp zr]. destruct p as
    [x y vx vy a hf vf og ja ia h dt tm].
  unfold Game.handleInput, stopMoving, startMovingLeft, startMovingRight,
    lookHorizontal, lookUp, lookDown, startJump, stopJump, on_ground.
  simpl.
  destruct l, r, u, d, zp, zr, vf, og; simpl; auto.
Qed.

Lemma handleInput_speedsBounded input p :
  speedsBounded p -> speedsBounded (Game.handleInput input p).
Proof.
  intros (BX & BY1 & BY2).
  destruct (handleInput_velocities input p) as (VX & VY).
  unfold speedsBounded. rewrite VX. split; [assumption |].
  destruct VY as [-> | ->]; [split; assumption |].
  split; vm_compute; discriminate.
Qed.

Lemma frame_invariants t map p :
  exists p',
    frame t map p = Some p' /\
    (speedsBounded p -> speedsBounded p') /\
    (intentCoherent p -> intentCoherent p').
Proof.
  unfold frame.
  set (p0 := set_invincible_timer _ p).
  destruct (update_speedsBounded t map p0) as (p' & E & S & R).
  exists p'. split; [assumption |]. split; [exact S |].
  unfold sameRest in R. simpl in R.
  destruct R as (A & B & C & _ & I & _).
  unfold intentCoherent. rewrite A, B, C, I. trivial.
Qed.

Lemma Game_update_invariants elapsed g :
  exists g',
    Game.update center_x batCollidesWith elapsed g = Some g' /\
    (speedsBounded (Game.player_ g) -> speedsBounded (Game.player_ g')) /\
    (intentCoherent (Game.player_ g) -> intentCoherent (Game.player_ g')) /\
    Game.map_ g' = Game.map_ g /\
    FirstCaveBat.x_ (Game.bat_ g') = FirstCaveBat.x_ (Game.bat_ g) /\
    FirstCaveBat.center_y_ (Game.bat_ g')
    = FirstCaveBat.center_y_ (Game.bat_ g).
Proof.
  unfold Game.update.
  destruct (frame_invariants elapsed (Game.map_ g) (Game.player_ g))
    as (p' & E & S & I).
  rewrite E. simpl. eexists. split; [reflexivity |]. simpl.
  split; [| split; [| auto]].
  - intros B. destruct (batCollidesWith _ _); auto.
    apply takeDamage_speedsBounded. auto.
  - intros B. destruct (batCollidesWith _ _); auto.
    apply takeDamage_intentCoherent. auto.
Qed.

(** X14.  Every iteration of the event loop runs to its end, and after
    it the acceleration intent is -1, 0 or 1 and points where the player
    faces, and a player that interacts does not look up.  The iteration
    changes neither the map nor the bat's x and flight center. *)
Theorem iteration_makes_intent_coherent :
  forall input (elapsed_time : MS) g,
    exists g',
      Game.iteration center_x batCollidesWith input elapsed_time g = Some g' /\
      intentCoherent (Game.player_ g') /\
      Game.map_ g' = Game.map_ g /\
      FirstCaveBat.x_ (Game.bat_ g') = FirstCaveBat.x_ (Game.bat_ g) /\
      FirstCaveBat.center_y_ (Game.bat_ g')
      = FirstCaveBat.center_y_ (Game.bat_ g).
Proof.
  intros input elapsed_time g. unfold Game.iteration.
  match goal with
  | |- context [Game.update _ _ ?t ?g0] =>
      destruct (Game_update_invariants t g0) as (g' & E & _ & I & M & X & Y)
  end.
  exists g'. split; [assumption |]. simpl in *.
  split; [apply I, handleInput_intentCoherent |]. auto.
Qed.

(** X15.  The event loop never fails an assertion, and it keeps the
    speeds within their limits: from a player with
    [|velocity_x| <= kMaxSpeedX] and
    [- kJumpSpeed <= velocity_y <= kMaxSpeedY], as the constructor builds
    it, every run of iterations ends in a player with the same bounds,
    whatever the inputs, the elapsed times, the map and the bat. *)
Theorem eventLoop_keeps_speeds :
  (forall x y health damage_text,
     speedsBounded (construct x y health damage_text)) /\
  forall (iterations : list (Game.Input * MS)) g,
    speedsBounded (Game.player_ g) ->
    exists g',
      Game.eventLoop center_x batCollidesWith iterations g = Some g' /\
      speedsBounded (Game.player_ g') /\
      Game.map_ g' = Game.map_ g.
Proof.
  split; [intros x y health damage_text; repeat split; vm_compute; discriminate |].
  induction iterations as [| [input elapsed_time] rest IH]; intros g B.
  - exists g. simpl. auto.
  - simpl. destruct (Game.quit input); [exists g; auto |].
    unfold Game.iteration.
    match goal with
    | |- context [Game.update _ _ ?t ?g0] =>
        destruct (Game_update_invariants t g0) as (g1 & E & S & _ & M & _)
    end.
    rewrite E. simpl.
    destruct (IH g1) as (g' & E' & S' & M').
    { apply S. simpl. apply handleInput_speedsBounded. exact B. }
    exists g'. split; [assumption |]. split; [assumption |].
    rewrite M', M. reflexivity.
Qed.

(** X16.  The interacting flag is switched on by nothing but a look
    down from the ground: when the input turns a player that does not
    interact into one that does, the down key is held and the up key is
    not, the jump key was not pressed, the player is on the ground, and
    it was not looking down before. *)
Theorem interacting_starts_by_looking_down :
  forall input p,
    interacting_ p = false ->
    interacting_ (Game.handleInput input p) = true ->
    Game.down_held input = true /\
    Game.up_held input = false /\
    Game.z_pressed input = false /\
    on_ground_ p = true /\
    vertical_facing_ p <> DOWN.
Proof.
  intros input p.
  destruct input as [qt l r u d zp zr]. destruct p as
    [x y vx vy a hf vf og ja ia h dt tm].
  unfold Game.handleInput, stopMoving, startMovingLeft, startMovingRight,
    lookHorizontal, lookUp, lookDown, startJump, stopJump, on_ground.
  simpl. intros ->.
  destruct l, r, u, d, zp, zr, vf, og; simpl; intros H;
    try discriminate H; repeat split; discriminate.
Qed.

(** X18.  The sprite that the classifier selects lies in the columns 0
    to 7 and the rows 0 and 1 of the sprite sheet, for every player that
    does not both interact and look up; the walking animation runs over
    three columns and stays within them. *)
Theorem sprite_stays_on_the_sheet :
  forall p,
    (interacting_ p = true -> vertical_facing_ p <> UP) ->
    let source := initializeSprite (fst (getSpriteState p)) in
    (lastColumn source <= 7)%N /\
    (firstColumn source <= lastColumn source)%N /\
    (sheetRow source <= 1)%N /\
    (sheetRow source = 0%N <-> horizontal_facing_ p = LEFT).
Proof.
  intros p H source. unfold source, getSpriteState, on_ground. simpl.
  destruct p as [x y vx vy a hf vf og ja ia h dt tm]. simpl in *.
  assert (U : ia = true -> vf <> UP) by exact H.
  destruct ia, og, (negb (a =? 0)%Z), (Qltb vy 0), hf, vf;
    try (exfalso; now apply U);
    vm_compute; repeat split; congruence.
Qed.

End GameProperties.

(** ** The sprites *)

Section SpriteProperties.

Import units Player.

Variable motionValue : MotionType -> Z.
Variable horizontalValue : HorizontalFacing -> Z.
Variable verticalValue : VerticalFacing -> Z.

Ltac order_cases :=
  unfold SpriteState_lt;
  repeat match goal with
         | |- context [(?a =? ?b)%Z] => destruct (Z.eqb_spec a b); simpl
         | H : context [(?a =? ?b)%Z] |- _ =>
             destruct (Z.eqb_spec a b); simpl in H
         end;
  repeat match goal with
         | |- context [(?a <? ?b)%Z] => destruct (Z.ltb_spec a b)
         | H : context [(?a <? ?b)%Z] |- _ => destruct (Z.ltb_spec a b)
         end;
  try reflexivity; try discriminate; try lia.

(** X19.  [operator<] on sprite states is a strict weak ordering, as a
    key of [std::map] must be, whatever values the enumerators have: no
    state is below itself, the order is asymmetric and transitive, and
    being unordered either way is transitive too. *)
Theorem SpriteState_lt_strict_weak_order :
  forall a b c,
    SpriteState_lt motionValue horizontalValue verticalValue a a = false /\
    (SpriteState_lt motionValue horizontalValue verticalValue a b = true ->
     SpriteState_lt motionValue horizontalValue verticalValue b a = false) /\
    (SpriteState_lt motionValue horizontalValue verticalValue a b = true ->
     SpriteState_lt motionValue horizontalValue verticalValue b c = true ->
     SpriteState_lt motionValue horizontalValue verticalValue a c = true) /\
    (SpriteState_lt motionValue horizontalValue verticalValue a b = false ->
     SpriteState_lt motionValue horizontalValue verticalValue b a = false ->
     SpriteState_lt motionValue horizontalValue verticalValue b c = false ->
     SpriteState_lt motionValue horizontalValue verticalValue c b = false ->
     SpriteState_lt motionValue horizontalValue verticalValue a c = false /\
     SpriteState_lt motionValue horizontalValue verticalValue c a = false).
Proof.
  intros a b c. split; [| split; [| split]].
  - order_cases.
  - intros H. revert H. order_cases.
  - intros H1 H2. revert H1 H2. order_cases.
  - intros H1 H2 H3 H4. revert H1 H2 H3 H4.
    split; revert H1 H2 H3 H4; order_cases.
Qed.

(** X20.  When the enumerators of each enumeration have different
    values, [operator<] orders any two different sprite states one way
    or the other: two states that are unordered either way are the same
    state, so that no two of them share an entry of [sprites_]. *)
Theorem SpriteState_lt_total :
  (forall m m', motionValue m = motionValue m' -> m = m') ->
  (forall h h', horizontalValue h = horizontalValue h' -> h = h') ->
  (forall v v', verticalValue v = verticalValue v' -> v = v') ->
  forall a b,
    SpriteState_lt motionValue horizontalValue verticalValue a b = false ->
    SpriteState_lt motionValue horizontalValue verticalValue b a = false ->
    a = b.
Proof.
  intros IM IH IV [ma ha va] [mb hb vb]. simpl.
  intros H1 H2.
  assert (E : motionValue ma = motionValue mb /\
              horizontalValue ha = horizontalValue hb /\
              verticalValue va = verticalValue vb).
  { revert H1 H2. unfold SpriteState_lt. simpl.
    destruct (Z.eqb_spec (motionValue ma) (motionValue mb));
      destruct (Z.eqb_spec (motionValue mb) (motionValue ma));
      destruct (Z.eqb_spec (horizontalValue ha) (horizontalValue hb));
      destruct (Z.eqb_spec (horizontalValue hb) (horizontalValue ha));
      destruct (Z.eqb_spec (verticalValue va) (verticalValue vb));
      destruct (Z.eqb_spec (verticalValue vb) (verticalValue va));
      simpl; intros H1 H2; try (repeat split; congruence);
      apply Z.ltb_ge in H1; apply Z.ltb_ge in H2; lia. }
  destruct E as (EM & EH & EV).
  apply IM in EM. apply IH in EH. apply IV in EV. now subst.
Qed.

(** X21.  The pictures of the sprite sheet.  Only the walking sprites
    are animated.  Looking up moves every picture three columns to the
    right.  Looking down changes the picture only in the air, where the
    jumping and the falling player share the picture of column 6; on the
    ground a player that looks down is drawn as one that looks ahead. *)
Theorem initializeSprite_pictures :
  forall m h v,
    ((exists x y f n, initializeSprite (mkSpriteState m h v)
                      = AnimatedSprite x y f n) <-> m = WALKING) /\
    firstColumn (initializeSprite (mkSpriteState m h UP))
    = (firstColumn (initializeSprite (mkSpriteState m h HORIZONTAL)) + 3)%N /\
    (m <> JUMPING -> m <> FALLING ->
     initializeSprite (mkSpriteState m h DOWN)
     = initializeSprite (mkSpriteState m h HORIZONTAL)) /\
    (m = JUMPING \/ m = FALLING ->
     initializeSprite (mkSpriteState m h DOWN)
     = StaticSprite 6%N (match h with LEFT => 0%N | RIGHT => 1%N end)).
Proof.
  intros m h v. split; [| split; [| split]].
  - split.
    + intros (x & y & f & n & E). destruct m, h, v; try discriminate E;
        reflexivity.
    + intros ->. destruct h, v; vm_compute; eauto.
  - destruct m, h; reflexivity.
  - intros J F. destruct m, h; try reflexivity; congruence.
  - intros [-> | ->]; destruct h; reflexivity.
Qed.

End SpriteProperties.

(** ** The band of the bat's flight *)

Section BatFlightProperties.

Import units FirstCaveBat.

Context {C : FirstCaveBat.Collaborators}.

(** X23.  With a sine between -1 and 1 and a half tile that is not
    negative, the bat never leaves the band of [kFlightAmplitude] around
    its flight center: after every update
    [|y - center_y| <= kFlightAmplitude]. *)
Theorem update_keeps_within_amplitude :
  (forall a, -1 <= sin a /\ sin a <= 1) ->
  0 <= kHalfTile ->
  forall (elapsed_time : MS) (player_x : Game) (b : FirstCaveBat.t C),
    Qabs (y_ (update elapsed_time player_x b)
          - center_y_ (update elapsed_time player_x b))
    <= kFlightAmplitude.
Proof.
  intros S H elapsed_time player_x b. unfold update. simpl.
  set (s := sin _). destruct (S (degreesToRadians
    (flight_angle_ b + kAngularVelocity * ofMS elapsed_time))) as [S1 S2].
  fold s in S1, S2.
  assert (A : 0 <= kFlightAmplitude) by (unfold kFlightAmplitude; lra).
  set (amp := kFlightAmplitude) in *.
  set (c := center_y_ b).
  apply (proj2 (Qabs_Qle_condition (c + amp * s - c) amp)).
  split; nra.
Qed.

End BatFlightProperties.

(** ** Further runs on the grid map *)

Section MoreGridRuns.

Import units Player.

#[local] Existing Instance GridMap.collaborators.
#[local] Existing Instance GridMap.batCollaborators.

(** The tiles of the grid are 32 units apart. *)
Lemma GridMap_tiles_32 :
  forall c, tileToGame (c + 1)%N == tileToGame c + 32.
Proof.
  intros c. simpl. unfold ofInt, GridMap.kTileSize.
  rewrite N2Z.inj_add, inject_Z_plus. simpl. ring.
Qed.

(** A run of X2: moving left at 0.1 per ms from x = 91 into the wall tile
    of column 2, whose right edge is at 96.  The player stops at
    x = 90. *)
Lemma updateX_moving_left_witness :
  let map := GridMap.getCollidingTiles [(0, 2)]%N in
  let p := GridMap.airborne 91 0 (-0.1) 0 in
  deltaX 16%N (updateX_velocity 16%N p) <= 0 /\
  exists p',
    updateX 16%N map p = Some p' /\ x_ p' = 90 /\ velocity_x_ p' = 0.
Proof.
  intros map p.
  assert (H : deltaX 16%N (updateX_velocity 16%N p) <= 0)
    by (vm_compute; discriminate).
  split; [exact H |].
  destruct (updateX_moving_left 16%N map p H)
    as (p2 & p' & E1 & _ & E3 & _ & _ & _ & K).
  exists p'. split; [exact E3 |].
  vm_compute in E1. injection E1 as <-. vm_compute in K. subst p'.
  split; reflexivity.
Defined.

(** A run of X3: falling from y = 30 onto the floor tile of row 2, whose
    top edge is at 64.  The player lands at y = 32. *)
Lemma updateY_moving_down_witness :
  let map := GridMap.getCollidingTiles [(2, 3)]%N in
  let p := GridMap.airborne 100 30 0 0.2 in
  0 < deltaY 16%N (updateY_velocity 16%N p) /\
  exists p', updateY 16%N map p = Some p' /\ y_ p' = 32.
Proof.
  intros map p.
  assert (H : 0 < deltaY 16%N (updateY_velocity 16%N p)) by reflexivity.
  split; [exact H |].
  destruct (updateY_moving_down 16%N map p H)
    as (p2 & p' & E1 & _ & E3 & _ & _ & K).
  exists p'. split; [exact E3 |].
  vm_compute in E1. injection E1 as <-. vm_compute in K. exact K.
Defined.

(** A run of X4: rising from y = 33 into the ceiling tile of row 0,
    whose bottom edge is at 32.  The player is put at y = 30, with the top
    collision edge at 32. *)
Lemma updateY_moving_up_witness :
  let map := GridMap.getCollidingTiles [(0, 3)]%N in
  let p := GridMap.airborne 100 33 0 (-0.25) in
  deltaY 16%N (updateY_velocity 16%N p) <= 0 /\
  exists p', updateY 16%N map p = Some p' /\ y_ p' = 30.
Proof.
  intros map p.
  assert (H : deltaY 16%N (updateY_velocity 16%N p) <= 0)
    by (vm_compute; discriminate).
  split; [exact H |].
  destruct (updateY_moving_up 16%N map p H)
    as (p2 & p' & E1 & _ & E3 & _ & K).
  exists p'. split; [exact E3 |].
  vm_compute in E1. injection E1 as <-. vm_compute in K. subst p'.
  reflexivity.
Defined.

(** A run of X8: a velocity of 0.005 is below what friction takes away in
    16 ms, and becomes zero. *)
Lemma friction_stops_witness :
  let p := GridMap.grounded 100 32 0.005 0%Z in
  acceleration_x_ p = 0%Z /\
  on_ground_ p = true /\
  Qabs (velocity_x_ p) <= kFriction * ofMS 16%N /\
  velocity_x_ (updateX_velocity 16%N p) == 0.
Proof.
  intros p.
  assert (B : Qabs (velocity_x_ p) <= kFriction * ofMS 16%N)
    by (vm_compute; discriminate).
  split; [reflexivity |]. split; [reflexivity |]. split; [exact B |].
  exact (proj2 (friction_stops 16%N p eq_refl eq_refl) B).
Defined.

(** A run of X12 on the grid: the snap to the wall of column 2 puts the
    left collision edge on 96, where column 3 starts. *)
Lemma snaps_touch_the_far_edge_witness :
  let map := GridMap.getCollidingTiles [(0, 2)]%N in
  let p := GridMap.airborne 91 0 (-0.1) 0 in
  let delta := -1.6 in
  delta <= 0 /\
  firstWall (map (leftCollisionRect p delta)) = Some (GridMap.wall 0%N 2%N) /\
  exists p2,
    updateX_left map delta p = Some p2 /\
    Rectangle.left (leftCollisionRect p2 0) == tileToGame 3%N.
Proof.
  intros map p delta.
  assert (H : delta <= 0) by (vm_compute; discriminate).
  assert (W : firstWall (map (leftCollisionRect p delta))
              = Some (GridMap.wall 0%N 2%N)) by (vm_compute; reflexivity).
  split; [exact H |]. split; [exact W |].
  exact (proj1 (snaps_touch_the_far_edge GridMap_tiles_32 map delta p
                  (GridMap.wall 0%N 2%N) H) W).
Defined.

(** A run of X15: two iterations, a step to the right and a jump. *)
Lemma eventLoop_keeps_speeds_witness :
  let g := Game.mk (construct 100 32 3%Z 0%Z) (GridMap.batAt 224 256)
             (GridMap.getCollidingTiles [(2, 3)]%N) in
  let iterations :=
    [ (Game.mkInput false false true false false false false, 16%N);
      (Game.mkInput false false true false false true false, 200%N) ] in
  speedsBounded (Game.player_ g) /\
  exists g',
    Game.eventLoop GridMap.center_x GridMap.batCollidesWith iterations g
    = Some g' /\
    speedsBounded (Game.player_ g') /\
    Game.map_ g' = Game.map_ g.
Proof.
  intros g iterations.
  assert (B : speedsBounded (Game.player_ g))
    by (repeat split; vm_compute; discriminate).
  split; [exact B |].
  exact (proj2 (eventLoop_keeps_speeds GridMap.center_x
                  GridMap.batCollidesWith) iterations g B).
Defined.

(** A run of X16: the down key on the ground. *)
Lemma interacting_starts_by_looking_down_witness :
  let input := Game.mkInput false false false false true false false in
  let p := GridMap.grounded 100 32 0 0%Z in
  interacting_ p = false /\
  interacting_ (Game.handleInput input p) = true /\
  Game.down_held input = true /\
  Game.up_held input = false /\
  Game.z_pressed input = false /\
  on_ground_ p = true /\
  vertical_facing_ p <> DOWN.
Proof.
  intros input p.
  split; [reflexivity |]. split; [reflexivity |].
  exact (interacting_starts_by_looking_down input p eq_refl eq_refl).
Defined.


(** A run of X18: the sprite of a player that walks to the left. *)
Lemma sprite_stays_on_the_sheet_witness :
  let p := GridMap.grounded 100 32 0 (-1)%Z in
  (interacting_ p = true -> vertical_facing_ p <> UP) /\
  (lastColumn (initializeSprite (fst (getSpriteState p))) <= 7)%N.
Proof.
  intros p.
  assert (H : interacting_ p = true -> vertical_facing_ p <> UP)
    by (intros E; discriminate E).
  split; [exact H |].
  exact (proj1 (sprite_stays_on_the_sheet p H)).
Defined.

Lemma GridMap_values_differ :
  (forall m m', GridMap.motionValue m = GridMap.motionValue m' -> m = m') /\
  (forall h h',
     GridMap.horizontalValue h = GridMap.horizontalValue h' -> h = h') /\
  (forall v v', GridMap.verticalValue v = GridMap.verticalValue v' -> v = v').
Proof.
  repeat split.
  - intros [] []; simpl; intros E; try reflexivity; discriminate E.
  - intros [] []; simpl; intros E; try reflexivity; discriminate E.
  - intros [] []; simpl; intros E; try reflexivity; discriminate E.
Qed.

(** A run of X20, with the enumerators numbered as the grid numbers
    them. *)
Lemma SpriteState_lt_total_witness :
  (forall m m', GridMap.motionValue m = GridMap.motionValue m' -> m = m') /\
  (forall h h',
     GridMap.horizontalValue h = GridMap.horizontalValue h' -> h = h') /\
  (forall v v', GridMap.verticalValue v = GridMap.verticalValue v' -> v = v') /\
  (forall a b,
     SpriteState_lt GridMap.motionValue GridMap.horizontalValue
       GridMap.verticalValue a b = false ->
     SpriteState_lt GridMap.motionValue GridMap.horizontalValue
       GridMap.verticalValue b a = false ->
     a = b).
Proof.
  split; [exact (proj1 GridMap_values_differ) |].
  split; [exact (proj1 (proj2 GridMap_values_differ)) |].
  split; [exact (proj2 (proj2 GridMap_values_differ)) |].
  exact (SpriteState_lt_total GridMap.motionValue GridMap.horizontalValue
           GridMap.verticalValue
           (proj1 GridMap_values_differ)
           (proj1 (proj2 GridMap_values_differ))
           (proj2 (proj2 GridMap_values_differ))).
Defined.

Lemma GridMap_sin_bounded :
  forall a, -1 <= FirstCaveBat.sin a /\ FirstCaveBat.sin a <= 1.
Proof.
  intros a. simpl. split.
  - apply Q.min_glb; [vm_compute; discriminate | apply Q.le_max_l].
  - apply Q.le_min_l.
Qed.

(** A run of X23: the bat of the grid after an update of 16 ms. *)
Lemma update_keeps_within_amplitude_witness :
  let b := GridMap.batAt 224 256 in
  0 <= FirstCaveBat.kHalfTile /\
  Qabs (FirstCaveBat.y_ (FirstCaveBat.update 16%N 100 b)
        - FirstCaveBat.center_y_ (FirstCaveBat.update 16%N 100 b))
  <= FirstCaveBat.kFlightAmplitude.
Proof.
  intros b.
  assert (H : 0 <= FirstCaveBat.kHalfTile) by (vm_compute; discriminate).
  split; [exact H |].
  exact (update_keeps_within_amplitude GridMap_sin_bounded H 16%N 100 b).
Defined.

End MoreGridRuns.

(** ** Landing *)

Section LandingProperties.

Import units Player.

Context {C : Collaborators}.

Implicit Types (p q : Player.t C) (map : Map.Provider) (t : MS).

Lemma ofMS_pos t : (0 < t)%N -> 0 < ofMS t.
Proof.
  intros H. unfold ofMS. change 0 with (inject_Z 0). rewrite <- Zlt_Qlt. lia.
Qed.

(** X24.  A player that is not rising falls in every frame that takes
    time: gravity makes its delta strictly positive, and after the
    vertical update it is on the ground exactly when the query below it,
    extended by that delta, finds a wall; on the ground it has no
    vertical velocity, and off the ground it keeps falling. *)
Theorem falling_player_lands_on_a_wall_below :
  forall t map p,
    (0 < t)%N ->
    0 <= velocity_y_ p ->
    let p1 := updateY_velocity t p in
    let delta := deltaY t p1 in
    0 < delta /\
    exists p',
      updateY t map p = Some p' /\
      (on_ground_ p' = true <->
       firstWall (map (bottomCollisionRect p1 delta)) <> None) /\
      (on_ground_ p' = true -> velocity_y_ p' = 0) /\
      (on_ground_ p' = false -> 0 < velocity_y_ p').
Proof.
  intros t map p T V p1 delta.
  pose proof (ofMS_pos t T) as Tq.
  assert (V1 : 0 < velocity_y_ p1).
  { unfold p1, updateY_velocity. simpl.
    assert (G : 0 < gravityY p * ofMS t).
    { apply Qmult_lt_0_compat; [| assumption].
      unfold gravityY. destruct (_ && _); reflexivity. }
    unfold std_min.
    destruct (Qltb kMaxSpeedY (velocity_y_ p + gravityY p * ofMS t));
      [reflexivity | lra]. }
  assert (D : 0 < delta) by (unfold delta, deltaY; nra).
  split; [exact D |].
  destruct (updateY_cases t map p) as (p' & U & Down & _).
  exists p'. split; [assumption |].
  specialize (Down D). fold p1 in Down. fold delta in Down.
  destruct (firstWall (map (bottomCollisionRect p1 delta))) as [w |].
  - destruct Down as [G Z]. rewrite G, Z.
    split; [| split]; [split; [discriminate | reflexivity] | reflexivity |
                       discriminate].
  - destruct Down as [G Z]. rewrite G, Z.
    split; [| split]; [split; [discriminate | congruence] | discriminate |].
    intros _. exact V1.
Qed.

End LandingProperties.

Section LandingRuns.

Import units Player.

#[local] Existing Instance GridMap.collaborators.

(** A run of X24: a player at rest on the floor tile of row 2 is on the
    ground again after a frame of 16 ms. *)
Lemma falling_player_lands_witness :
  let map := GridMap.getCollidingTiles [(2, 3)]%N in
  let p := GridMap.grounded 100 32 0 0%Z in
  (0 < 16)%N /\
  0 <= velocity_y_ p /\
  exists p',
    updateY 16%N map p = Some p' /\ on_ground_ p' = true /\ y_ p' = 32.
Proof.
  intros map p.
  assert (V : 0 <= velocity_y_ p) by (vm_compute; discriminate).
  split; [reflexivity |]. split; [exact V |].
  destruct (falling_player_lands_on_a_wall_below 16%N map p eq_refl V)
    as (_ & p' & U & G & _).
  exists p'. split; [exact U |].
  vm_compute in U. injection U as <-. split; reflexivity.
Defined.

End LandingRuns.
